(** * Darts-App: the X01 scoring engine and the bot visit simulator

    A shallow embedding of [src/constants/index.ts],
    [src/scoring/scoringEngine.ts] and [src/scoring/botEngine.ts].

    Modelling conventions.
    - A visit score, a remaining score and every counter is a JavaScript
      [number] that holds an integer; it is a [Z] here.
    - The division by two in the constructor and the uniform draws of
      [Math.random()] are exact rationals [Q].  Numeric equality on [Q] is
      [==].
    - The roundings of a quotient (the 3-dart average, the first-nine
      average, the checkout percentage) are modelled twice.  [Binary64]
      evaluates them as the source does, on binary64 numbers.  [Scoring]
      and [ScoringUtil] hold the same expressions on exact rationals, and
      it is these that the [average] of a [MatchStats] carries.  On the
      ranges that [AverageProps] covers, the two give the same hundredths
      except where the quotient lies half-way between two of them, where
      binary64 may give the lower one.
    - An optional property ([id?], [sets?], [highest_checkout?], ...) and a
      [T | null] are [option T]; [undefined] and [null] are [None].
    - Objects are never mutated after they are handed out (every operation
      of the engine builds a fresh object), so a [PlayerState] is a value. *)

From Stdlib Require Import ZArith QArith Qround Qabs Lia Lqa.
From Stdlib Require Floats Uint63.
From stdpp Require Import base list gmap strings pretty.

Local Open Scope Z_scope.

(** ** The JavaScript primitives the source relies on *)

Module JS.

(** [Math.floor] and [Math.ceil] on an exact quotient. *)
Definition Math_floor (x : Q) : Z := Qfloor x.
Definition Math_ceil (x : Q) : Z := Qceiling x.

(** [Math.round]: the nearest integer, a tie going to the larger one. *)
Definition Math_round (x : Q) : Z := Qfloor (x + (1 # 2)).

Definition Math_max (a b : Z) : Z := Z.max a b.
Definition Math_min (a b : Z) : Z := Z.min a b.

(** [a < b] on rationals as a boolean. *)
Definition Qltb (a b : Q) : bool := negb (Qle_bool b a).

(** [Array.prototype.includes] on an array of integers. *)
Definition includes (l : list Z) (x : Z) : bool := existsb (Z.eqb x) l.

(** Truthiness of an optional number: [undefined], [null] and [0] are falsy. *)
Definition truthy (o : option Z) : bool :=
  match o with
  | None => false
  | Some n => negb (n =? 0)
  end.

(** [arr.reduce((sum, x) => sum + x, 0)]. *)
Definition sum_reduce (l : list Z) : Z := fold_left (fun sum x => sum + x) l 0.

End JS.

(** ** [src/types/index.ts] *)

Module Types.

Inductive MatchType : Type := first_to | best_of.

Record MatchConfig : Type := mkMatchConfig {
  startingScore : Z;
  matchType : MatchType;
  targetLegs : Z;
  targetSets : option Z;
  doubleIn : option bool;
  doubleOut : option bool
}.

Record MatchStats : Type := mkMatchStats {
  scores_65_plus : Z;
  scores_90_plus : Z;
  scores_100_plus : Z;
  scores_140_plus : Z;
  scores_170_plus : Z;
  scores_180 : Z;
  best_leg : option Z;
  average : Q;
  highest_checkout : option Z;
  visit_history : option (list Z);
  playerName : option string
}.

End Types.

(** ** [src/constants/index.ts] *)

Module Constants.
Import Types.

Definition VALID_CHECKOUTS : list Z :=
  [2; 3; 4; 5; 6; 7; 8; 9; 10; 11; 12; 13; 14; 15; 16; 17; 18; 19; 20;
   21; 22; 23; 24; 25; 26; 27; 28; 29; 30; 31; 32; 33; 34; 35; 36; 37; 38; 39; 40;
   41; 42; 43; 44; 45; 46; 47; 48; 49; 50; 51; 52; 53; 54; 55; 56; 57; 58; 60;
   61; 62; 63; 64; 65; 66; 67; 68; 70; 71; 72; 73; 74; 75; 76; 77; 78; 79; 80;
   81; 82; 83; 84; 85; 86; 87; 88; 89; 90; 91; 92; 93; 94; 95; 96; 97; 98; 100;
   101; 102; 103; 104; 105; 106; 107; 108; 110; 111; 112; 113; 114; 115; 116; 117; 118; 119; 120;
   121; 122; 123; 124; 125; 126; 127; 128; 129; 130; 131; 132; 133; 134; 135; 136; 137; 138; 139; 140;
   141; 142; 143; 144; 145; 146; 147; 148; 149; 150; 151; 152; 153; 154; 155; 156; 157; 158; 160;
   161; 164; 167; 170].

Definition INVALID_CHECKOUTS : list Z := [159; 162; 163; 165; 166; 168; 169].

(** The entries of the [CHECKOUT_TABLE] object literal, in source order. *)
Definition CHECKOUT_ENTRIES : list (Z * string) :=
  [(170, "T20 T20 Bull"); (167, "T20 T19 Bull"); (164, "T20 T18 Bull");
   (161, "T20 T17 Bull"); (160, "T20 T20 D20"); (158, "T20 T20 D19");
   (157, "T20 T19 D20"); (156, "T20 T20 D18"); (155, "T20 T19 D19");
   (154, "T20 T18 D20"); (153, "T20 T19 D18"); (152, "T20 T20 D16");
   (151, "T20 T17 D20"); (150, "T20 T18 D18"); (148, "T20 T20 D14");
   (147, "T20 T17 D18"); (146, "T20 T18 D16"); (145, "T20 T15 D20");
   (144, "T20 T20 D12"); (143, "T20 T17 D16"); (142, "T20 T14 D20");
   (141, "T20 T19 D12"); (140, "T20 T20 D10"); (139, "T19 T14 D20");
   (138, "T20 T18 D12"); (137, "T20 T19 D10"); (136, "T20 T20 D8");
   (135, "T20 T17 D12"); (134, "T20 T14 D16"); (133, "T20 T19 D8");
   (132, "T20 T16 D12"); (131, "T20 T13 D16"); (130, "T20 T18 D8");
   (129, "T19 T16 D12"); (128, "T18 T14 D16"); (127, "T20 T17 D8");
   (126, "T19 T19 D6"); (125, "T18 T19 D7"); (124, "T20 T14 D11");
   (123, "T19 T16 D9"); (122, "T18 T18 D7"); (121, "T17 T10 D20");
   (120, "T20 S20 D20"); (119, "T19 T12 D13"); (118, "T20 S18 D20");
   (117, "T20 S17 D20"); (116, "T20 S16 D20"); (115, "T19 S18 D20");
   (114, "T20 S14 D20"); (113, "T19 S16 D20"); (112, "T20 S12 D20");
   (111, "T19 S14 D20"); (110, "T20 S10 D20"); (109, "T19 S12 D20");
   (108, "T20 S8 D20"); (107, "T19 S10 D20"); (106, "T20 S6 D20");
   (105, "T19 S8 D20"); (104, "T18 S10 D20"); (103, "T19 S6 D20");
   (102, "T20 S10 D16"); (101, "T17 S10 D20"); (100, "T20 D20");
   (99, "T19 S10 D16"); (98, "T20 D19"); (97, "T19 D20"); (96, "T20 D18");
   (95, "T19 D19"); (94, "T18 D20"); (93, "T19 D18"); (92, "T20 D16");
   (91, "T17 D20"); (90, "T18 D18"); (89, "T19 D16"); (88, "T20 D14");
   (87, "T17 D18"); (86, "T18 D16"); (85, "T15 D20"); (84, "T20 D12");
   (83, "T17 D16"); (82, "T14 D20"); (81, "T19 D12"); (80, "T20 D10");
   (79, "T19 D11"); (78, "T18 D12"); (77, "T19 D10"); (76, "T20 D8");
   (75, "T17 D12"); (74, "T14 D16"); (73, "T19 D8"); (72, "T16 D12");
   (71, "T13 D16"); (70, "T18 D8"); (69, "T19 D6"); (68, "T20 D4");
   (67, "T17 D8"); (66, "T10 D18"); (65, "T19 D4"); (64, "T16 D8");
   (63, "T13 D12"); (62, "T10 D16"); (61, "T15 D8"); (60, "S20 D20");
   (59, "S19 D20"); (58, "S18 D20"); (57, "S17 D20"); (56, "T16 D4");
   (55, "S15 D20"); (54, "S14 D20"); (53, "S13 D20"); (52, "S12 D20");
   (51, "S11 D20"); (50, "S10 D20"); (49, "S9 D20"); (48, "S8 D20");
   (47, "S7 D20"); (46, "S6 D20"); (45, "S13 D16"); (44, "S4 D20");
   (43, "S3 D20"); (42, "S10 D16"); (41, "S9 D16"); (40, "D20");
   (38, "D19"); (36, "D18"); (34, "D17"); (32, "D16"); (30, "D15");
   (28, "D14"); (26, "D13"); (24, "D12"); (22, "D11"); (20, "D10");
   (18, "D9"); (16, "D8"); (14, "D7"); (12, "D6"); (10, "D5"); (8, "D4");
   (6, "D3"); (4, "D2"); (2, "D1")].

(** [CHECKOUT_TABLE]: the frozen object used as a map from score to finish.
    The literal repeats no key, so the order of insertion is immaterial. *)
Definition CHECKOUT_TABLE : gmap Z string := list_to_map CHECKOUT_ENTRIES.

Definition MAX_SCORE : Z := 180.
Definition MIN_CHECKOUT : Z := 2.
Definition MAX_CHECKOUT : Z := 170.

(** [INITIAL_MATCH_STATS] carries neither [highest_checkout] nor
    [visit_history]. *)
Definition INITIAL_MATCH_STATS : MatchStats :=
  {| scores_65_plus := 0;
     scores_90_plus := 0;
     scores_100_plus := 0;
     scores_140_plus := 0;
     scores_170_plus := 0;
     scores_180 := 0;
     best_leg := None;
     average := 0%Q;
     highest_checkout := None;
     visit_history := None;
     playerName := None |}.

(** [CHECKOUT_TABLE[score] ?? null] *)
Definition getCheckoutSuggestion (score : Z) : option string :=
  CHECKOUT_TABLE !! score.

End Constants.

(** ** [src/scoring/scoringEngine.ts] *)

Module Scoring.
Import JS Types Constants.

Record PlayerState : Type := mkPlayerState {
  id : option string;
  name : string;
  score : Z;
  legs : Z;
  sets : option Z;
  history : list Z;
  matchHistory : list Z;
  stats : MatchStats;
  dartsThrown : Z
}.

Record ThrowResult : Type := mkThrowResult {
  success : bool;
  newScore : Z;
  isBust : bool;
  isLegWon : bool;
  isMatchWon : bool;
  message : option string
}.

(** The private fields of a [DartsScoringEngine] instance. *)
Record DartsScoringEngine : Type := mkEngine {
  config : MatchConfig;
  legsNeeded : Z
}.

(** [constructor(config)]: [doubleOut] defaults to [true]; [legsNeeded] is
    computed once. *)
Definition new_DartsScoringEngine (cfg : MatchConfig) : DartsScoringEngine :=
  let config' :=
    {| startingScore := startingScore cfg;
       matchType := matchType cfg;
       targetLegs := targetLegs cfg;
       targetSets := targetSets cfg;
       doubleIn := doubleIn cfg;
       doubleOut := match doubleOut cfg with
                    | None => Some true
                    | Some b => Some b
                    end |} in
  {| config := config';
     legsNeeded :=
       match matchType config' with
       | first_to => targetLegs config'
       | best_of => Math_ceil (inject_Z (targetLegs config') / 2)
       end |}.

Section Engine.

Variable this : DartsScoringEngine.

Definition createPlayerState (name : string) (id : option string) : PlayerState :=
  {| id := id;
     name := name;
     score := startingScore (config this);
     legs := 0;
     sets := Some 0;
     history := [];
     matchHistory := [];
     stats := INITIAL_MATCH_STATS;
     dartsThrown := 0 |}.

(** The private method [isBust]; the field [isBust] of [ThrowResult] has
    taken the name. *)
Definition isBust_score (newScore : Z) : bool :=
  (newScore <? 0) || (newScore =? 1).

Definition processThrow (player : PlayerState) (scoreThrown : Z) : ThrowResult :=
  if (scoreThrown <? 0) || (scoreThrown >? MAX_SCORE) then
    {| success := false;
       newScore := score player;
       isBust := false;
       isLegWon := false;
       isMatchWon := false;
       message := Some ("Invalid score. Maximum is " +:+ pretty MAX_SCORE +:+ ".") |}
  else
    let newScore := score player - scoreThrown in
    if isBust_score newScore then
      {| success := true;
         newScore := score player;
         isBust := true;
         isLegWon := false;
         isMatchWon := false;
         message := Some "Bust!" |}
    else if newScore =? 0 then
      let isMatchWon := legs player + 1 >=? legsNeeded this in
      {| success := true;
         newScore := 0;
         isBust := false;
         isLegWon := true;
         isMatchWon := isMatchWon;
         message := Some (if isMatchWon then "Match won!" else "Leg won!") |}
    else
      {| success := true;
         newScore := newScore;
         isBust := false;
         isLegWon := false;
         isMatchWon := false;
         message := None |}.

Definition checkMatchWin (legs : Z) : bool := legs >=? legsNeeded this.

Definition getLegsNeeded : Z := legsNeeded this.

(** [(cond ? 1 : 0)] *)
Definition bump (cond : bool) : Z := if cond then 1 else 0.

Definition updateStats (stats : MatchStats) (scoreThrown : Z) : MatchStats :=
  {| scores_180 := scores_180 stats + bump (scoreThrown =? 180);
     scores_170_plus :=
       scores_170_plus stats + bump ((scoreThrown >=? 170) && (scoreThrown <? 180));
     scores_140_plus :=
       scores_140_plus stats + bump ((scoreThrown >=? 140) && (scoreThrown <? 170));
     scores_100_plus :=
       scores_100_plus stats + bump ((scoreThrown >=? 100) && (scoreThrown <? 140));
     scores_90_plus :=
       scores_90_plus stats + bump ((scoreThrown >=? 90) && (scoreThrown <? 100));
     scores_65_plus :=
       scores_65_plus stats + bump ((scoreThrown >=? 65) && (scoreThrown <? 90));
     best_leg := best_leg stats;
     average := average stats;
     highest_checkout := highest_checkout stats;
     visit_history := visit_history stats;
     playerName := playerName stats |}.

(** [Math.round((total / matchHistory.length) * 100) / 100], on exact
    rationals: the mean rounded to two decimal places, a tie going up.
    The binary64 evaluation of the source is [Binary64.calculateAverage]. *)
Definition calculateAverage (matchHistory : list Z) : Q :=
  if Z.of_nat (length matchHistory) =? 0 then 0%Q
  else
    let total := sum_reduce matchHistory in
    (inject_Z
       (Math_round
          (inject_Z total / inject_Z (Z.of_nat (length matchHistory)) * 100))
     / 100)%Q.

(** [{ ...stats, best_leg: v }] and [{ ...stats, highest_checkout: v }]. *)
Definition set_best_leg (stats : MatchStats) (v : option Z) : MatchStats :=
  {| scores_65_plus := scores_65_plus stats;
     scores_90_plus := scores_90_plus stats;
     scores_100_plus := scores_100_plus stats;
     scores_140_plus := scores_140_plus stats;
     scores_170_plus := scores_170_plus stats;
     scores_180 := scores_180 stats;
     best_leg := v;
     average := average stats;
     highest_checkout := highest_checkout stats;
     visit_history := visit_history stats;
     playerName := playerName stats |}.

Definition set_highest_checkout (stats : MatchStats) (v : option Z) : MatchStats :=
  {| scores_65_plus := scores_65_plus stats;
     scores_90_plus := scores_90_plus stats;
     scores_100_plus := scores_100_plus stats;
     scores_140_plus := scores_140_plus stats;
     scores_170_plus := scores_170_plus stats;
     scores_180 := scores_180 stats;
     best_leg := best_leg stats;
     average := average stats;
     highest_checkout := v;
     visit_history := visit_history stats;
     playerName := playerName stats |}.

(** [stats.average = a; stats.visit_history = h] on a fresh object. *)
Definition set_average_history (stats : MatchStats) (a : Q) (h : list Z) : MatchStats :=
  {| scores_65_plus := scores_65_plus stats;
     scores_90_plus := scores_90_plus stats;
     scores_100_plus := scores_100_plus stats;
     scores_140_plus := scores_140_plus stats;
     scores_170_plus := scores_170_plus stats;
     scores_180 := scores_180 stats;
     best_leg := best_leg stats;
     average := a;
     highest_checkout := highest_checkout stats;
     visit_history := Some h;
     playerName := playerName stats |}.

Definition updateBestLeg (stats : MatchStats) (dartsThrown : Z) : MatchStats :=
  match best_leg stats with
  | None => set_best_leg stats (Some dartsThrown)
  | Some best =>
      if dartsThrown <? best then set_best_leg stats (Some dartsThrown) else stats
  end.

Record Applied : Type := mkApplied {
  player : PlayerState;
  result : ThrowResult
}.

Definition applyThrow (p : PlayerState) (scoreThrown : Z) : Applied :=
  let result := processThrow p scoreThrown in
  if negb (success result) then {| player := p; result := result |}
  else if isBust result then
    {| player :=
         {| id := id p; name := name p; score := score p; legs := legs p;
            sets := sets p; history := history p;
            matchHistory := matchHistory p; stats := stats p;
            dartsThrown := dartsThrown p + 3 |};
       result := result |}
  else if isLegWon result then
    let finalDarts := dartsThrown p + 3 in
    let newHistory := history p ++ [scoreThrown] in
    let newMatchHistory := matchHistory p ++ [scoreThrown] in
    let newStats := updateStats (stats p) scoreThrown in
    let newStats := updateBestLeg newStats finalDarts in
    let newStats :=
      if negb (truthy (highest_checkout newStats))
         || match highest_checkout newStats with
            | Some h => score p >? h
            | None => false
            end
      then set_highest_checkout newStats (Some (score p))
      else newStats in
    let newStats :=
      set_average_history newStats (calculateAverage newMatchHistory) newMatchHistory in
    {| player :=
         {| id := id p; name := name p; score := 0; legs := legs p + 1;
            sets := sets p; history := newHistory;
            matchHistory := newMatchHistory; stats := newStats;
            dartsThrown := 0 |};
       result := result |}
  else
    let newHistory := history p ++ [scoreThrown] in
    let newMatchHistory := matchHistory p ++ [scoreThrown] in
    let newStats := updateStats (stats p) scoreThrown in
    let newStats :=
      set_average_history newStats (calculateAverage newMatchHistory) newMatchHistory in
    {| player :=
         {| id := id p; name := name p; score := newScore result; legs := legs p;
            sets := sets p; history := newHistory;
            matchHistory := newMatchHistory; stats := newStats;
            dartsThrown := dartsThrown p + 3 |};
       result := result |}.

Definition resetForNewLeg (p : PlayerState) : PlayerState :=
  {| id := id p; name := name p;
     score := startingScore (config this);
     legs := legs p; sets := sets p;
     history := [];
     matchHistory := matchHistory p; stats := stats p;
     dartsThrown := 0 |}.

Definition resetForNewMatch (p : PlayerState) : PlayerState :=
  {| id := id p; name := name p;
     score := startingScore (config this);
     legs := 0;
     sets := Some 0;
     history := [];
     matchHistory := [];
     stats := INITIAL_MATCH_STATS;
     dartsThrown := 0 |}.

Definition getSuggestedCheckout (remaining : Z) : option string :=
  getCheckoutSuggestion remaining.

End Engine.

End Scoring.

(** ** [src/scoring/botEngine.ts] *)

Module Bot.
Import JS Constants.

Record BotLevel : Type := mkBotLevel {
  id : Z;
  name : string;
  displayName : string;
  avg : Z;
  checkoutRate : Q;
  consistency : Z
}.

Definition BOT_LEVELS : list BotLevel :=
  [ {| id := 1; name := "beginner"; displayName := "Beginner";
       avg := 30; checkoutRate := 5 # 100; consistency := 30 |};
    {| id := 2; name := "pub_player"; displayName := "Pub Player";
       avg := 45; checkoutRate := 15 # 100; consistency := 28 |};
    {| id := 3; name := "super_league"; displayName := "Super League";
       avg := 60; checkoutRate := 30 # 100; consistency := 25 |};
    {| id := 4; name := "county"; displayName := "County";
       avg := 75; checkoutRate := 50 # 100; consistency := 22 |};
    {| id := 5; name := "pro"; displayName := "Professional";
       avg := 95; checkoutRate := 75 # 100; consistency := 18 |};
    {| id := 6; name := "dartbot_3000"; displayName := "Dartbot 3000";
       avg := 110; checkoutRate := 90 # 100; consistency := 12 |} ].

Definition GOOD_LEAVES : list Z := [32; 40; 36; 24; 16; 20; 8].

(** [arr[i]] for an integer index: [undefined] outside the array. *)
Definition array_get (arr : list Z) (i : Z) : option Z :=
  if i <? 0 then None else arr !! Z.to_nat i.

(** *** The random source

    [Math.random()] is a global effect.  The draws of a run are a sequence
    [src]; a computation threads the number of draws made so far. *)

Definition RandomSource : Type := nat -> Q.

Definition Rand (A : Type) : Type := RandomSource -> nat -> A * nat.

Definition ret {A : Type} (a : A) : Rand A := fun _ n => (a, n).

Definition bind {A B : Type} (c : Rand A) (k : A -> Rand B) : Rand B :=
  fun src n => let (a, n') := c src n in k a src n'.

Definition Math_random : Rand Q := fun src n => (src n, S n).

Notation "x <- c ;; k" := (bind c (fun x => k))
  (at level 100, c at next level, right associativity).

(** Every draw of [Math.random()] lies in [[0, 1)]. *)
Definition uniform (src : RandomSource) : Prop :=
  forall n, (0 <= src n)%Q /\ (src n < 1)%Q.

Section Engine.

(** [this.level] *)
Variable level : BotLevel.

(** [Math.sqrt(-2.0 * Math.log(u1)) * Math.cos(2.0 * Math.PI * u2)], the
    Box-Muller variate of two draws.  It is not a rational function, so it
    stays a parameter: nothing is assumed about its values.  (At [u1 = 0]
    the source computes an infinity, which the clamp below sends to 0 or
    180 like any variate of large magnitude; the cosine of a binary64
    number is never 0, so no [NaN] arises.) *)
Variable boxMuller : Q -> Q -> Q.

(** The result of the bot is a number; [None] is [NaN], which arithmetic
    on [undefined] produces. *)

Definition getIdealLeave : Rand (option Z) :=
  if avg level >=? 80 then ret (Some 32)
  else
    r <- Math_random ;;
    ret (array_get GOOD_LEAVES
           (Math_floor (r * inject_Z (Z.of_nat (length GOOD_LEAVES))))).

Definition attemptCheckout (currentScore : Z) : Rand (option Z) :=
  roll <- Math_random ;;
  if Qltb roll (checkoutRate level) then ret (Some currentScore)
  else if currentScore <=? 40 then
    let missedScore := Math_floor (inject_Z currentScore / 2) in
    r <- Math_random ;;
    let variance := Math_floor (r * 10) - 5 in
    ret (Some (Math_max 0 (missedScore + variance)))
  else
    targetLeave <- getIdealLeave ;;
    match targetLeave with
    | None =>
        (* currentScore - undefined is NaN and stays NaN to the end *)
        r <- Math_random ;;
        ret None
    | Some targetLeave =>
        let potentialScore := currentScore - targetLeave in
        let potentialScore := if potentialScore >? 180 then 100 else potentialScore in
        let potentialScore := if potentialScore <=? 0 then 0 else potentialScore in
        r <- Math_random ;;
        let variance := Math_floor (r * 20) - 10 in
        ret (Some (Math_max 0 (Math_min 180 (potentialScore + variance))))
    end.

Definition generateScoringVisit (currentScore : Z) : Rand (option Z) :=
  u1 <- Math_random ;;
  u2 <- Math_random ;;
  let z := boxMuller u1 u2 in
  let score :=
    Math_round (inject_Z (avg level) + z * inject_Z (consistency level)) in
  let score := Math_max 0 (Math_min 180 score) in
  if (currentScore - score <=? 1) && (currentScore >? 40) then
    idealLeave <- getIdealLeave ;;
    match idealLeave with
    | Some idealLeave =>
        if currentScore >? idealLeave
        then ret (Some (currentScore - idealLeave))
        else ret (Some (Math_max 0 (currentScore - 40)))
    | None =>
        (* currentScore > undefined is false *)
        ret (Some (Math_max 0 (currentScore - 40)))
    end
  else ret (Some score).

Definition generateScore (currentScore : Z) : Rand (option Z) :=
  let canCheckout :=
    (currentScore <=? 170) && negb (includes INVALID_CHECKOUTS currentScore) in
  if canCheckout then attemptCheckout currentScore
  else generateScoringVisit currentScore.

End Engine.

End Bot.

(** ** The dartboard

    The rules of the board that the specification appeals to when it calls
    a score reachable in three darts under double-out: a dart scores a
    single 1..20, the outer bull 25, a double, the bull 50 or a treble, and
    the last dart of a finish is a double or the bull. *)

Module Board.

Definition segments : list Z := map Z.of_nat (seq 1 20).

Definition singles : list Z := segments ++ [25].
Definition doubles : list Z := map (Z.mul 2) segments ++ [50].
Definition trebles : list Z := map (Z.mul 3) segments.

(** What one dart can score; 0 is a dart not thrown (or a miss). *)
Definition dart_scores : list Z := 0 :: singles ++ doubles ++ trebles.

(** [s] is the total of at most three darts of which the last is a double. *)
Definition reachable_in_three (s : Z) : Prop :=
  exists a b d, a ∈ dart_scores /\ b ∈ dart_scores /\ d ∈ doubles /\ s = a + b + d.

(** The same as a search over the three darts. *)
Definition reachable_in_threeb (s : Z) : bool :=
  existsb
    (fun a =>
       existsb
         (fun b => existsb (fun d => s =? a + b + d) doubles)
         dart_scores)
    dart_scores.

End Board.

(** ** Vocabulary of the statements

    Names for the outcomes of a visit, the states an engine can reach, the
    buckets of [MatchStats] and the sums the specification speaks of. *)

Module Vocabulary.
Import JS Types Constants Scoring.

Definition config_of (start : Z) (mt : MatchType) (target : Z) : MatchConfig :=
  {| startingScore := start; matchType := mt; targetLegs := target;
     targetSets := None; doubleIn := None; doubleOut := None |}.

(** The total of a list of visits. *)
Definition total (l : list Z) : Z := foldr Z.add 0 l.

(** The integers [lo, lo + 1, ..., lo + n - 1]. *)
Definition Zrange (lo : Z) (n : nat) : list Z :=
  map (fun i => lo + Z.of_nat i) (seq 0 n).

(** The scores for which the table is promised to hold a finish: the
    doubles up to 40, everything from 41 to 158 but 149, and the five
    finishes on the bull or double 20 above. *)
Definition tabulated (s : Z) : bool :=
  ((2 <=? s) && (s <=? 40) && Z.even s)
  || ((41 <=? s) && (s <=? 158) && negb (s =? 149))
  || includes [160; 161; 164; 167; 170] s.

(** The odd scores below 40, which need a single before the double. *)
Definition odd_below_40 (s : Z) : bool :=
  (3 <=? s) && (s <? 40) && Z.odd s.

Section Engine.

Variable this : DartsScoringEngine.

Definition rejected (p : PlayerState) : ThrowResult :=
  {| success := false; newScore := score p; isBust := false;
     isLegWon := false; isMatchWon := false;
     message := Some "Invalid score. Maximum is 180." |}.

Definition bust (p : PlayerState) : ThrowResult :=
  {| success := true; newScore := score p; isBust := true;
     isLegWon := false; isMatchWon := false; message := Some "Bust!" |}.

Definition checkout (p : PlayerState) : ThrowResult :=
  let won := legs p + 1 >=? legsNeeded this in
  {| success := true; newScore := 0; isBust := false;
     isLegWon := true; isMatchWon := won;
     message := Some (if won then "Match won!" else "Leg won!") |}.

Definition scored (p : PlayerState) (v : Z) : ThrowResult :=
  {| success := true; newScore := score p - v; isBust := false;
     isLegWon := false; isMatchWon := false; message := None |}.

(** The state after a bust: only [dartsThrown] moves. *)
Definition after_bust (p : PlayerState) : PlayerState :=
  {| id := id p; name := name p; score := score p; legs := legs p;
     sets := sets p; history := history p; matchHistory := matchHistory p;
     stats := stats p; dartsThrown := dartsThrown p + 3 |}.

(** The states a caller can hold: a fresh state, and whatever [applyThrow]
    (with any number as the visit), [resetForNewLeg] and [resetForNewMatch]
    return on a state it holds. *)
Inductive reachable : PlayerState -> Prop :=
  | reach_create (name : string) (id : option string) :
      reachable (createPlayerState this name id)
  | reach_applyThrow (p : PlayerState) (scoreThrown : Z) :
      reachable p -> reachable (player (applyThrow this p scoreThrown))
  | reach_resetForNewLeg (p : PlayerState) :
      reachable p -> reachable (resetForNewLeg this p)
  | reach_resetForNewMatch (p : PlayerState) :
      reachable p -> reachable (resetForNewMatch this p).

End Engine.

(** A player on 40 after four visits of a 501 leg. *)
Definition on_forty (legs_won : Z) : PlayerState :=
  {| id := None; name := "Ann"; score := 40; legs := legs_won;
     sets := Some 0; history := [100; 140; 121; 100];
     matchHistory := [100; 140; 121; 100];
     stats := INITIAL_MATCH_STATS; dartsThrown := 12 |}.

(** A player on 159 after two visits of a 501 leg. *)
Definition on_159 : PlayerState :=
  {| id := None; name := "Bob"; score := 159; legs := 0;
     sets := Some 0; history := [180; 162]; matchHistory := [180; 162];
     stats := INITIAL_MATCH_STATS; dartsThrown := 6 |}.

(** The first level of the catalogue, and two sequences of draws. *)
Definition beginner : Bot.BotLevel :=
  Bot.mkBotLevel 1 "beginner" "Beginner" 30 (5 # 100) 30.

Definition always_zero : Bot.RandomSource := fun _ => 0%Q.
Definition always_half : Bot.RandomSource := fun _ => (1 # 2)%Q.

(** The six magnitude buckets of [MatchStats]. *)
Inductive Bucket : Type := B65 | B90 | B100 | B140 | B170 | B180.

Definition bucket_count (b : Bucket) (s : MatchStats) : Z :=
  match b with
  | B65 => scores_65_plus s
  | B90 => scores_90_plus s
  | B100 => scores_100_plus s
  | B140 => scores_140_plus s
  | B170 => scores_170_plus s
  | B180 => scores_180 s
  end.

Definition threshold (b : Bucket) : Z :=
  match b with
  | B65 => 65 | B90 => 90 | B100 => 100 | B140 => 140 | B170 => 170 | B180 => 180
  end.

(** The range of visits the specification assigns to a bucket. *)
Definition bucket_range (b : Bucket) : Z * Z :=
  match b with
  | B65 => (65, 89) | B90 => (90, 99) | B100 => (100, 139)
  | B140 => (140, 169) | B170 => (170, 179) | B180 => (180, 180)
  end.

Definition in_bucket_range (b : Bucket) (v : Z) : Prop :=
  fst (bucket_range b) <= v <= snd (bucket_range b).

(** The specification's rule: a bucket matches a visit that reaches its
    threshold, and the bucket of the visit is the matching one with the
    highest threshold. *)
Definition highest_matching (v : Z) (b : Bucket) : Prop :=
  threshold b <= v /\ forall b', threshold b' <= v -> threshold b' <= threshold b.

(** The mean of a non-empty list of visits. *)
Definition mean (l : list Z) : Q :=
  (inject_Z (total l) / inject_Z (Z.of_nat (length l)))%Q.

(** The specification's [round2], as a whole number of hundredths: [x]
    rounded to two decimal places is [round2 x / 100].  A value half-way
    between two hundredths goes to the upper one. *)
Definition round2 (x : Q) : Z := Math_round (x * 100).


End Vocabulary.

(** ** [src/scoring/scoringEngine.ts], the exported helpers *)

Module ScoringUtil.
Import JS Types Constants Scoring.

(** [getConfig()]: a copy of the configuration held by the engine. *)
Definition getConfig (this : DartsScoringEngine) : MatchConfig := config this.

(** [matchHistory.slice(0, 3)], then the average as in [calculateAverage],
    on exact rationals. *)
Definition calculateFirst9Average (matchHistory : list Z) : Q :=
  let first3Visits := take 3 matchHistory in
  if Z.of_nat (length first3Visits) =? 0 then 0%Q
  else
    let total := sum_reduce first3Visits in
    (inject_Z
       (Math_round
          (inject_Z total / inject_Z (Z.of_nat (length first3Visits)) * 100))
     / 100)%Q.

(** [VALID_CHECKOUTS.has(score)] *)
Definition isValidCheckout (score : Z) : bool := includes VALID_CHECKOUTS score.

(** [Math.round((checkoutsHit / checkoutAttempts) * 100)], on exact
    rationals. *)
Definition calculateCheckoutPercentage (checkoutsHit checkoutAttempts : Z) : Z :=
  if checkoutAttempts =? 0 then 0
  else Math_round (inject_Z checkoutsHit / inject_Z checkoutAttempts * 100).

End ScoringUtil.

(** ** The averages in binary64

    [Math.round((total / matchHistory.length) * 100) / 100] as the source
    evaluates it: a division, a multiplication, [Math.round] and a second
    division, each on IEEE 754 binary64 numbers (the primitive floats).
    The visits are integers whose sum stays far below [2^53], where the
    additions of [reduce] are exact, so the sum is taken in [Z]. *)

Module Binary64.
Import JS.
Import Floats Uint63.

(** [Math.round(x)]: [x] itself when it is an integer, a zero, an infinity
    or NaN; otherwise the integer nearest to [x], the larger one when [x]
    is half-way between two, with the sign of [x] kept on a zero result
    ([Math.round(-0.2)] is [-0]).

    [frshiftexp] and [normfr_mantissa] give [|x| = m * 2^(e - 2154)] with
    [2^52 <= m < 2^53], and [m = 0] when [x] is a zero, an infinity or NaN
    (2154 is the bias 2101 of [frshiftexp] plus the 53 bits of [m]).  With
    [s = 2154 - e > 0] fractional bits, [floor (|x| + 1/2)] is
    [(2 m + 2^s) / 2^(s + 1)] and [ceil (|x| - 1/2)] is
    [(2 m + 2^s - 1) / 2^(s + 1)]; both fit 63-bit integers when [s <= 54],
    and for [s >= 55], that is [|x| < 1/4], the result is a zero. *)
Definition Math_round (x : float) : float :=
  let (f, e) := frshiftexp (abs x) in
  let m := normfr_mantissa f in
  if ((m =? 0) || (2154 <=? e))%uint63 then x
  else
    let k :=
      if (e <=? 2099)%uint63 then 0%uint63
      else
        let s := (2154 - e)%uint63 in
        if (x <? 0)%float then ((2 * m + (1 << s) - 1) >> (s + 1))%uint63
        else ((2 * m + (1 << s)) >> (s + 1))%uint63 in
    if (x <? 0)%float then (- of_uint63 k)%float else of_uint63 k.

(** The binary64 number that holds the integer [z]; exact for
    [|z| < 2^53]. *)
Definition Z2F (z : Z) : float :=
  if z <? 0 then (- of_uint63 (of_Z (- z)))%float else of_uint63 (of_Z z).

(** [DartsScoringEngine.calculateAverage] *)
Definition calculateAverage (matchHistory : list Z) : float :=
  if Z.of_nat (length matchHistory) =? 0 then 0%float
  else
    let total := sum_reduce matchHistory in
    (Math_round ((Z2F total / Z2F (Z.of_nat (length matchHistory))) * 100)
     / 100)%float.

(** [calculateFirst9Average] *)
Definition calculateFirst9Average (matchHistory : list Z) : float :=
  let first3Visits := take 3 matchHistory in
  if Z.of_nat (length first3Visits) =? 0 then 0%float
  else
    let total := sum_reduce first3Visits in
    (Math_round ((Z2F total / Z2F (Z.of_nat (length first3Visits))) * 100)
     / 100)%float.

(** [calculateCheckoutPercentage] *)
Definition calculateCheckoutPercentage
    (checkoutsHit checkoutAttempts : Z) : float :=
  if checkoutAttempts =? 0 then 0%float
  else Math_round ((Z2F checkoutsHit / Z2F checkoutAttempts) * 100)%float.

(** [k] hundredths as a JavaScript number: the binary64 number nearest to
    [k / 100], which prints as that decimal. *)
Definition hundredths (k : Z) : float := (Z2F k / 100)%float.

(** *** A check of every quotient of a bounded range

    [nearestb post t n]: [Math.round((t / n) * 100)], then [post], is what
    [post] makes of the integer [k] nearest to [100 t / n], the larger one
    at a tie, or at a tie of the smaller one, [k - 1].  The integer side is
    computed on 63-bit integers, where [k] is the quotient of [200 t + n]
    by [2 n] and a tie is a zero remainder. *)
Definition nearestb (post : float -> float) (t n : int) : bool :=
  let r := post (Math_round ((of_uint63 t / of_uint63 n) * 100)%float) in
  let k := ((200 * t + n) / (2 * n))%uint63 in
  Leibniz.eqb r (post (of_uint63 k))
  || (((200 * t + n) mod (2 * n) =? 0)%uint63
      && Leibniz.eqb r (post (of_uint63 (k - 1)%uint63))).

(** [P] on [lo], [lo + 1], ..., [lo + count - 1]. *)
Fixpoint all_from (count : nat) (lo : int) (P : int -> bool) : bool :=
  match count with
  | O => true
  | S c => if P lo then all_from c (lo + 1)%uint63 P else false
  end.

(** [nearestb] on the numerators [0 .. cnt - 1] of the denominator [n], then
    on [step] more for each of the next [count - 1] denominators. *)
Fixpoint rows (post : float -> float) (step count : nat) (n : int) (cnt : nat)
    : bool :=
  match count with
  | O => true
  | S c =>
      if all_from cnt 0%uint63 (fun t => nearestb post t n)
      then rows post step c (n + 1)%uint63 (step + cnt)
      else false
  end.

(** [nearestb] on every [t / n] with [1 <= n <= N] and
    [0 <= t <= step * n]. *)
Definition scan (post : float -> float) (step N : nat) : bool :=
  rows post step N 1%uint63 (step + 1).

End Binary64.

(** ** Measures on a player state *)

Module Measures.
Import JS Types Constants Scoring Vocabulary.

(** Whether a visit falls in the range of a bucket. *)
Definition in_bucket_rangeb (b : Bucket) (v : Z) : bool :=
  (fst (bucket_range b) <=? v) && (v <=? snd (bucket_range b)).

(** How many visits of a list fall in the range of a bucket. *)
Definition visits_in_bucket (b : Bucket) (l : list Z) : Z :=
  total (map (fun v => bump (in_bucket_rangeb b v)) l).

(** A visit the engine accepts. *)
Definition admissible (v : Z) : Prop := 0 <= v <= 180.

(** The smaller of an optional best and a new count of darts. *)
Definition best_of_legs (best : option Z) (darts : Z) : Z :=
  match best with
  | None => darts
  | Some b => Z.min b darts
  end.

(** The larger of an optional highest checkout and a new checkout. *)
Definition highest_of (highest : option Z) (checkout : Z) : Z :=
  match highest with
  | None => checkout
  | Some h => Z.max h checkout
  end.

(** The scores [isValidCheckout] leaves out although they can be finished. *)
Definition missing_valid : list Z := [59; 69; 99; 109].

End Measures.

(** ** [src/constants/index.ts]: room codes *)

Module CodeGen.
Import JS Bot.

Definition CODE_CHARACTERS : string := "ABCDEFGHJKMNPQRSTUVWXYZ23456789".
Definition DEFAULT_CODE_LENGTH : Z := 6.

(** [s.charAt(i)]: the empty string outside the string. *)
Definition charAt (s : string) (i : Z) : string :=
  if i <? 0 then ""
  else match String.get (Z.to_nat i) s with
       | Some c => String c ""
       | None => ""
       end.

(** The body of [for (let i = 0; i < length; i++)], with [todo] rounds left. *)
Fixpoint generateCode_loop (todo : nat) (code : string) : Rand string :=
  match todo with
  | O => ret code
  | S todo' =>
      r <- Math_random ;;
      generateCode_loop todo'
        (code +:+ charAt CODE_CHARACTERS
                    (Math_floor
                       (r * inject_Z (Z.of_nat (String.length CODE_CHARACTERS)))))
  end.

(** [generateCode(length = DEFAULT_CODE_LENGTH)]; the loop runs
    [max(0, length)] times. *)
Definition generateCode (length : option Z) : Rand string :=
  let length := default DEFAULT_CODE_LENGTH length in
  generateCode_loop (Z.to_nat length) "".

(** The characters left out of the codes because they are easily confused. *)
Definition confusing : string := "0OI1L".

(** The characters of a string. *)
Definition chars (s : string) : list Ascii.ascii := String.list_ascii_of_string s.

End CodeGen.

(** ** [src/scoring/botEngine.ts]: the catalogue look-ups and the delay *)

Module BotUtil.
Import JS Constants Bot.

(** [new Map(BOT_LEVELS.map(l => [l.id, l]))]: a later entry replaces an
    earlier one with the same key. *)
Definition LEVEL_BY_ID : gmap Z BotLevel :=
  foldl (fun m l => <[id l := l]> m) ∅ BOT_LEVELS.

Definition LEVEL_BY_NAME : gmap string BotLevel :=
  foldl (fun m l => <[name l := l]> m) ∅ BOT_LEVELS.

Definition getBotLevelById (i : Z) : option BotLevel := LEVEL_BY_ID !! i.

Definition getBotLevelByName (n : string) : option BotLevel := LEVEL_BY_NAME !! n.

Definition getAllBotLevels : list BotLevel := BOT_LEVELS.


Section Engine.

Variable level : BotLevel.


End Engine.

End BotUtil.

(** ** The notation of a finish

    A finish of [CHECKOUT_TABLE] names its darts, separated by a space:
    [S n], [D n] and [T n] for the single, double and treble of segment
    [n], and [Bull] for the bull (50, which counts as a double). *)

Module Finish.

(** A dart: what it scores, and whether it is a double. *)
Definition dart_names : list (string * (Z * bool)) :=
  ("Bull", (50, true))
  :: flat_map
       (fun n =>
          [ ("S" +:+ pretty n, (n, false));
            ("D" +:+ pretty n, (2 * n, true));
            ("T" +:+ pretty n, (3 * n, false)) ])
       Board.segments.

Definition dart_of_name (w : string) : option (Z * bool) :=
  (list_to_map dart_names : gmap string (Z * bool)) !! w.

(** The words of a string, [word] being the word read so far. *)
Fixpoint words_from (s : string) (word : string) : list string :=
  match s with
  | EmptyString => [word]
  | String c rest =>
      if Ascii.eqb c Ascii.Space then word :: words_from rest ""
      else words_from rest (word +:+ String c "")
  end.

Definition darts_of (finish : string) : option (list (Z * bool)) :=
  mapM dart_of_name (words_from finish "").

(** The darts of [finish] are at most three, add up to [s] and end on a
    double. *)
Definition finishes (s : Z) (finish : string) : Prop :=
  exists darts last_dart,
    darts_of finish = Some darts
    /\ (length darts <= 3)%nat
    /\ Vocabulary.total (map fst darts) = s
    /\ last darts = Some (last_dart, true).

Definition finishesb (s : Z) (finish : string) : bool :=
  match darts_of finish with
  | Some darts =>
      (length darts <=? 3)%nat
      && (Vocabulary.total (map fst darts) =? s)
      && match last darts with
         | Some (_, true) => true
         | _ => false
         end
  | None => false
  end.

End Finish.

(** ** [src/App.tsx]: the two-player game

    The state of the component is the tuple of its [useState] cells; a
    handler is a function from the state it closes over to the state after
    its setters have run (the last call of a setter wins). *)

Module App.
Import JS Scoring.

Inductive GameScreen : Type := setup_screen | game_screen | result_screen.

Record GameSetup : Type := mkGameSetup {
  player1Name : string;
  player2Name : string;
  startingScore : Z;
  matchType : Types.MatchType;
  targetLegs : Z
}.

Definition STARTING_SCORE_OPTIONS : list Z := [501; 301; 170; 121].
Definition LEGS_OPTIONS : list Z := [1; 3; 5; 7; 9; 11].

(** [currentPlayer: 1 | 2] *)
Inductive Side : Type := One | Two.

Record State : Type := mkState {
  screen : GameScreen;
  setup : GameSetup;
  engine : option DartsScoringEngine;
  player1 : option PlayerState;
  player2 : option PlayerState;
  currentPlayer : Side;
  inputValue : string;
  showStatsModal : bool;
  winner : option string
}.

Definition initial : State :=
  {| screen := setup_screen;
     setup := {| player1Name := "Player 1"; player2Name := "Player 2";
                 startingScore := 501; matchType := Types.first_to;
                 targetLegs := 3 |};
     engine := None; player1 := None; player2 := None;
     currentPlayer := One; inputValue := ""; showStatsModal := false;
     winner := None |}.

(** [currentPlayer === 1 ? 2 : 1] *)
Definition other_side (s : Side) : Side :=
  match s with One => Two | Two => One end.

(** The [MatchConfig] that [handleStartGame] builds from the setup. *)
Definition config_of_setup (g : GameSetup) : Types.MatchConfig :=
  {| Types.startingScore := startingScore g;
     Types.matchType := matchType g;
     Types.targetLegs := targetLegs g;
     Types.targetSets := None;
     Types.doubleIn := None;
     Types.doubleOut := Some true |}.

(** [setSetup(s => ({ ...s, field: value }))] *)
Definition setSetup (st : State) (g : GameSetup) : State :=
  {| screen := screen st; setup := g; engine := engine st;
     player1 := player1 st; player2 := player2 st;
     currentPlayer := currentPlayer st; inputValue := inputValue st;
     showStatsModal := showStatsModal st; winner := winner st |}.

Definition setInputValue (st : State) (v : string) : State :=
  {| screen := screen st; setup := setup st; engine := engine st;
     player1 := player1 st; player2 := player2 st;
     currentPlayer := currentPlayer st; inputValue := v;
     showStatsModal := showStatsModal st; winner := winner st |}.

Definition setShowStatsModal (st : State) (shown : bool) : State :=
  {| screen := screen st; setup := setup st; engine := engine st;
     player1 := player1 st; player2 := player2 st;
     currentPlayer := currentPlayer st; inputValue := inputValue st;
     showStatsModal := shown; winner := winner st |}.

(** The game screen is rendered: the screen is ['game'] and the engine and
    both players are there. *)
Definition on_game_screen (st : State) : Prop :=
  screen st = game_screen
  /\ is_Some (engine st) /\ is_Some (player1 st) /\ is_Some (player2 st).

Definition handleStartGame (st : State) : State :=
  let newEngine := new_DartsScoringEngine (config_of_setup (setup st)) in
  let p1 := createPlayerState newEngine (player1Name (setup st)) None in
  let p2 := createPlayerState newEngine (player2Name (setup st)) None in
  {| screen := game_screen; setup := setup st; engine := Some newEngine;
     player1 := Some p1; player2 := Some p2;
     currentPlayer := One; inputValue := "";
     showStatsModal := showStatsModal st; winner := None |}.

(** [prev + num.toString()], kept only if at most three characters long. *)
Definition handleNumberClick (st : State) (num : Z) : State :=
  let newValue := inputValue st +:+ pretty num in
  if (3 <? String.length newValue)%nat then st else setInputValue st newValue.

Definition handleClear (st : State) : State := setInputValue st "".

(** [prev.slice(0, -1)] *)
Definition handleUndo (st : State) : State :=
  setInputValue st
    (String.substring 0 (String.length (inputValue st) - 1) (inputValue st)).

Section Handlers.

(** [parseInt(s, 10)], with [None] for [NaN].  The function of the
    language is not modelled: it is a parameter, and nothing is assumed
    about it. *)
Variable parseInt : string -> option Z.

Definition handleEnter (st : State) : State :=
  match engine st, player1 st, player2 st with
  | Some engine, Some player1, Some player2 =>
      if String.eqb (inputValue st) "" then st
      else
        match parseInt (inputValue st) with
        | None => setInputValue st ""
        | Some score =>
            let currentPlayerState :=
              match currentPlayer st with One => player1 | Two => player2 end in
            let otherPlayerState :=
              match currentPlayer st with One => player2 | Two => player1 end in
            let applied := applyThrow engine currentPlayerState score in
            let updatedPlayer := player applied in
            let result := result applied in
            (* the states of the thrower and of the other player, and the
               remaining cells, after the setters *)
            let finish (current other : PlayerState) (side : Side)
                       (scr : GameScreen) (win : option string) : State :=
              {| screen := scr; setup := setup st; engine := Some engine;
                 player1 := Some (match currentPlayer st with
                                  | One => current | Two => other end);
                 player2 := Some (match currentPlayer st with
                                  | One => other | Two => current end);
                 currentPlayer := side; inputValue := "";
                 showStatsModal := showStatsModal st; winner := win |} in
            if isMatchWon result then
              finish updatedPlayer otherPlayerState (currentPlayer st)
                result_screen (Some (name updatedPlayer))
            else if isLegWon result then
              finish (resetForNewLeg engine updatedPlayer)
                (resetForNewLeg engine otherPlayerState)
                (other_side (currentPlayer st)) (screen st) (winner st)
            else if negb (isBust result) then
              finish updatedPlayer otherPlayerState
                (other_side (currentPlayer st)) (screen st) (winner st)
            else
              finish updatedPlayer otherPlayerState (currentPlayer st)
                (screen st) (winner st)
        end
  | _, _, _ => st
  end.

Definition handleNewGame (st : State) : State :=
  {| screen := setup_screen; setup := setup st; engine := None;
     player1 := None; player2 := None;
     currentPlayer := currentPlayer st; inputValue := inputValue st;
     showStatsModal := showStatsModal st; winner := None |}.

Definition handleRematch (st : State) : State :=
  match engine st, player1 st, player2 st with
  | Some engine, Some player1, Some player2 =>
      {| screen := game_screen; setup := setup st; engine := Some engine;
         player1 := Some (resetForNewMatch engine player1);
         player2 := Some (resetForNewMatch engine player2);
         currentPlayer := One; inputValue := "";
         showStatsModal := showStatsModal st; winner := None |}
  | _, _, _ => st
  end.

(** What the user can do, by the screen that is rendered: the setup form
    on ['setup'], the two buttons on ['result'] (rendered when both players
    are there), the keypad and the back button on the game screen
    (rendered when the engine and both players are there). *)
Inductive step : State -> State -> Prop :=
  | step_name1 st nm :
      screen st = setup_screen ->
      step st (setSetup st {| player1Name := nm;
                              player2Name := player2Name (setup st);
                              startingScore := startingScore (setup st);
                              matchType := matchType (setup st);
                              targetLegs := targetLegs (setup st) |})
  | step_name2 st nm :
      screen st = setup_screen ->
      step st (setSetup st {| player1Name := player1Name (setup st);
                              player2Name := nm;
                              startingScore := startingScore (setup st);
                              matchType := matchType (setup st);
                              targetLegs := targetLegs (setup st) |})
  | step_startingScore st score :
      screen st = setup_screen -> score ∈ STARTING_SCORE_OPTIONS ->
      step st (setSetup st {| player1Name := player1Name (setup st);
                              player2Name := player2Name (setup st);
                              startingScore := score;
                              matchType := matchType (setup st);
                              targetLegs := targetLegs (setup st) |})
  | step_matchType st mt :
      screen st = setup_screen ->
      step st (setSetup st {| player1Name := player1Name (setup st);
                              player2Name := player2Name (setup st);
                              startingScore := startingScore (setup st);
                              matchType := mt;
                              targetLegs := targetLegs (setup st) |})
  | step_targetLegs st legs :
      screen st = setup_screen -> legs ∈ LEGS_OPTIONS ->
      step st (setSetup st {| player1Name := player1Name (setup st);
                              player2Name := player2Name (setup st);
                              startingScore := startingScore (setup st);
                              matchType := matchType (setup st);
                              targetLegs := legs |})
  | step_start st :
      screen st = setup_screen -> step st (handleStartGame st)
  | step_rematch st :
      screen st = result_screen -> is_Some (player1 st) -> is_Some (player2 st) ->
      step st (handleRematch st)
  | step_new_from_result st :
      screen st = result_screen -> is_Some (player1 st) -> is_Some (player2 st) ->
      step st (handleNewGame st)
  | step_new_from_game st :
      on_game_screen st -> step st (handleNewGame st)
  | step_stats st shown :
      on_game_screen st -> step st (setShowStatsModal st shown)
  | step_number st num :
      on_game_screen st -> 0 <= num <= 9 ->
      step st (handleNumberClick st num)
  | step_clear st :
      on_game_screen st -> step st (handleClear st)
  | step_undo st :
      on_game_screen st -> step st (handleUndo st)
  | step_enter st :
      on_game_screen st -> step st (handleEnter st).

(** The states the component can be in. *)
Inductive reachable_state : State -> Prop :=
  | reach_initial : reachable_state initial
  | reach_step st st' : reachable_state st -> step st st' -> reachable_state st'.

End Handlers.

(** The player whose turn it is, and the other one. *)
Definition thrower (st : State) : option PlayerState :=
  match currentPlayer st with One => player1 st | Two => player2 st end.

Definition waiting (st : State) : option PlayerState :=
  match currentPlayer st with One => player2 st | Two => player1 st end.

(** While a game is on: the engine is the one of the setup, both players
    are in the middle of a leg and short of the legs needed, and there is no
    winner. *)
Definition game_on (st : State) : Prop :=
  exists e p1 p2,
    engine st = Some e /\ player1 st = Some p1 /\ player2 st = Some p2
    /\ e = new_DartsScoringEngine (config_of_setup (setup st))
    /\ Vocabulary.reachable e p1 /\ Vocabulary.reachable e p2
    /\ 2 <= score p1 /\ 2 <= score p2
    /\ 0 <= legs p1 < legsNeeded e /\ 0 <= legs p2 < legsNeeded e
    /\ winner st = None.

(** When a match is over: the thrower has just checked out, holds exactly
    the legs needed and is the winner; the other player is short of them. *)
Definition game_over (st : State) : Prop :=
  exists e p1 p2 w l,
    engine st = Some e /\ player1 st = Some p1 /\ player2 st = Some p2
    /\ e = new_DartsScoringEngine (config_of_setup (setup st))
    /\ Vocabulary.reachable e p1 /\ Vocabulary.reachable e p2
    /\ thrower st = Some w /\ waiting st = Some l
    /\ winner st = Some (name w)
    /\ score w = 0 /\ legs w = legsNeeded e
    /\ 0 <= legs l < legsNeeded e.

Definition setup_valid (g : GameSetup) : Prop :=
  startingScore g ∈ STARTING_SCORE_OPTIONS /\ targetLegs g ∈ LEGS_OPTIONS.

Definition invariant (st : State) : Prop :=
  setup_valid (setup st)
  /\ (String.length (inputValue st) <= 3)%nat
  /\ match screen st with
     | setup_screen =>
         engine st = None /\ player1 st = None /\ player2 st = None
         /\ winner st = None
     | game_screen => game_on st
     | result_screen => game_over st
     end.

End App.

(** ** States and draws for the examples *)

Module Samples.
Import JS Types Constants Scoring Vocabulary.

(** A 501 match, first to three legs, and a player after an opening 140. *)
Definition engine_501 : DartsScoringEngine :=
  new_DartsScoringEngine (config_of 501 first_to 3).

Definition after_140 : PlayerState :=
  player (applyThrow engine_501 (createPlayerState engine_501 "Ann" None) 140).

(** [parseInt] standing in for an entry of 60, of 121 and of 181. *)
Definition reads_60 : string -> option Z := fun _ => Some 60.
Definition reads_121 : string -> option Z := fun _ => Some 121.
Definition reads_181 : string -> option Z := fun _ => Some 181.

(** The game screen right after the start, and with a digit typed. *)
Definition started : App.State := App.handleStartGame App.initial.
Definition typed : App.State := App.handleNumberClick started 1.

(** A one-leg match from 121, up to the entry that finishes it. *)
Definition picked_121 : App.State :=
  App.setSetup App.initial
    {| App.player1Name := "Player 1"; App.player2Name := "Player 2";
       App.startingScore := 121; App.matchType := first_to;
       App.targetLegs := 3 |}.

Definition short_setup : App.State :=
  App.setSetup picked_121
    {| App.player1Name := "Player 1"; App.player2Name := "Player 2";
       App.startingScore := 121; App.matchType := first_to;
       App.targetLegs := 1 |}.

Definition short_typed : App.State :=
  App.handleNumberClick (App.handleStartGame short_setup) 1.

Definition short_over : App.State := App.handleEnter reads_121 short_typed.

End Samples.

(** * Properties of the scoring engine *)

Module ScoringProps.
Import JS Types Constants Scoring Vocabulary.

Section Engine.

Variable this : DartsScoringEngine.

(** The four outcomes of [processThrow], by the branch taken. *)

Lemma processThrow_rejected p v :
  v < 0 \/ v > 180 -> processThrow this p v = rejected p.
Proof.
  intros Hv. unfold processThrow, MAX_SCORE.
  destruct (Z.ltb_spec v 0) as [Hneg | Hpos]; [reflexivity |].
  rewrite Z.gtb_ltb. destruct (Z.ltb_spec 180 v); [reflexivity | lia].
Qed.

Lemma processThrow_in_range p v :
  0 <= v <= 180 ->
  processThrow this p v =
    if isBust_score (score p - v) then bust p
    else if score p - v =? 0 then checkout this p
    else scored p v.
Proof.
  intros Hv. unfold processThrow, MAX_SCORE.
  destruct (Z.ltb_spec v 0); [lia |].
  rewrite Z.gtb_ltb. destruct (Z.ltb_spec 180 v); [lia |]. reflexivity.
Qed.

Lemma isBust_score_true n : isBust_score n = true <-> n < 0 \/ n = 1.
Proof.
  unfold isBust_score. rewrite orb_true_iff, Z.ltb_lt, Z.eqb_eq. reflexivity.
Qed.

Lemma isBust_score_false n : isBust_score n = false <-> 0 <= n /\ n <> 1.
Proof.
  unfold isBust_score. rewrite orb_false_iff, Z.ltb_ge, Z.eqb_neq. reflexivity.
Qed.

Lemma processThrow_bust p v :
  0 <= v <= 180 -> score p - v < 0 \/ score p - v = 1 ->
  processThrow this p v = bust p.
Proof.
  intros Hv Hb. rewrite processThrow_in_range by assumption.
  apply isBust_score_true in Hb. rewrite Hb. reflexivity.
Qed.

Lemma processThrow_checkout p v :
  0 <= v <= 180 -> score p - v = 0 ->
  processThrow this p v = checkout this p.
Proof.
  intros Hv H0. rewrite processThrow_in_range by assumption.
  rewrite H0. reflexivity.
Qed.

Lemma processThrow_scored p v :
  0 <= v <= 180 -> 2 <= score p - v ->
  processThrow this p v = scored p v.
Proof.
  intros Hv H2. rewrite processThrow_in_range by assumption.
  assert (Hnb : isBust_score (score p - v) = false)
    by (apply isBust_score_false; lia).
  rewrite Hnb. destruct (Z.eqb_spec (score p - v) 0); [lia | reflexivity].
Qed.

(** Every visit falls in exactly one of the four cases. *)
Lemma visit_cases (p : PlayerState) (v : Z) :
  (v < 0 \/ v > 180)
  \/ (0 <= v <= 180 /\ (score p - v < 0 \/ score p - v = 1))
  \/ (0 <= v <= 180 /\ score p - v = 0)
  \/ (0 <= v <= 180 /\ 2 <= score p - v).
Proof. lia. Qed.

Lemma applyThrow_rejected p v :
  v < 0 \/ v > 180 ->
  applyThrow this p v = {| player := p; result := rejected p |}.
Proof.
  intros Hv. unfold applyThrow. rewrite processThrow_rejected by assumption.
  reflexivity.
Qed.

Lemma applyThrow_bust_eq p v :
  0 <= v <= 180 -> score p - v < 0 \/ score p - v = 1 ->
  applyThrow this p v = {| player := after_bust p; result := bust p |}.
Proof.
  intros Hv Hb. unfold applyThrow. rewrite processThrow_bust by assumption.
  reflexivity.
Qed.

Lemma applyThrow_checkout_fields p v :
  0 <= v <= 180 -> score p - v = 0 ->
  let a := applyThrow this p v in
  result a = checkout this p
  /\ score (player a) = 0
  /\ legs (player a) = legs p + 1
  /\ history (player a) = history p ++ [v]
  /\ matchHistory (player a) = matchHistory p ++ [v]
  /\ dartsThrown (player a) = 0
  /\ id (player a) = id p /\ name (player a) = name p
  /\ sets (player a) = sets p.
Proof.
  intros Hv H0. unfold applyThrow.
  rewrite processThrow_checkout by assumption. simpl. tauto.
Qed.

Lemma applyThrow_scored_fields p v :
  0 <= v <= 180 -> 2 <= score p - v ->
  let a := applyThrow this p v in
  result a = scored p v
  /\ score (player a) = score p - v
  /\ legs (player a) = legs p
  /\ history (player a) = history p ++ [v]
  /\ matchHistory (player a) = matchHistory p ++ [v]
  /\ dartsThrown (player a) = dartsThrown p + 3
  /\ id (player a) = id p /\ name (player a) = name p
  /\ sets (player a) = sets p.
Proof.
  intros Hv H2. unfold applyThrow.
  rewrite processThrow_scored by assumption. simpl. tauto.
Qed.

(** C2. Bust invariance: a visit in [0,180] that would leave less than 0,
    or exactly 1, is reported with [isBust = true] and returns the state
    with [dartsThrown] three higher and nothing else changed: the score,
    both histories, the legs, the sets and the stats are the old ones. *)
Theorem applyThrow_bust (p : PlayerState) (visitScore : Z) :
  0 <= visitScore <= 180 ->
  score p - visitScore < 0 \/ score p - visitScore = 1 ->
  let a := applyThrow this p visitScore in
  isBust (result a) = true
  /\ score (player a) = score p
  /\ dartsThrown (player a) = dartsThrown p + 3
  /\ history (player a) = history p
  /\ matchHistory (player a) = matchHistory p
  /\ legs (player a) = legs p
  /\ sets (player a) = sets p
  /\ stats (player a) = stats p.
Proof.
  intros Hv Hb a. subst a. rewrite applyThrow_bust_eq by assumption.
  simpl. repeat split.
Qed.

(** C3. Checkout completeness: a visit in [0,180] equal to the remaining
    score is a leg win whatever the visit is (no look-up in
    [VALID_CHECKOUTS] takes place): [processThrow] reports [isLegWon = true]
    and [newScore = 0], and [applyThrow] adds one leg, appends the visit to
    both histories, sets the score to 0 and [dartsThrown] to 0. *)
Theorem checkout_wins_leg (p : PlayerState) (visitScore : Z) :
  0 <= visitScore <= 180 ->
  score p - visitScore = 0 ->
  let r := processThrow this p visitScore in
  let a := applyThrow this p visitScore in
  isLegWon r = true /\ newScore r = 0
  /\ result a = r
  /\ legs (player a) = legs p + 1
  /\ history (player a) = history p ++ [visitScore]
  /\ matchHistory (player a) = matchHistory p ++ [visitScore]
  /\ score (player a) = 0
  /\ dartsThrown (player a) = 0.
Proof.
  intros Hv H0 r a.
  destruct (applyThrow_checkout_fields p visitScore Hv H0)
    as (Hr & Hs & Hl & Hh & Hm & Hd & _).
  subst r a. rewrite processThrow_checkout by assumption.
  simpl. tauto.
Qed.

(** C4. Rejection: [processThrow] reports [success = false] exactly when
    the visit is below 0 or above 180; then [newScore] is the current
    score, the message is present, and [applyThrow] hands back the very
    state it was given.  Every visit in [0,180] has [success = true]. *)
Theorem processThrow_rejects_out_of_range (p : PlayerState) (visitScore : Z) :
  (success (processThrow this p visitScore) = false
     <-> visitScore < 0 \/ visitScore > 180)
  /\ (success (processThrow this p visitScore) = false ->
      newScore (processThrow this p visitScore) = score p
      /\ message (processThrow this p visitScore)
         = Some "Invalid score. Maximum is 180."
      /\ player (applyThrow this p visitScore) = p)
  /\ (0 <= visitScore <= 180 ->
      success (processThrow this p visitScore) = true).
Proof.
  assert (Hin : 0 <= visitScore <= 180 ->
                success (processThrow this p visitScore) = true).
  { intros Hv. rewrite processThrow_in_range by assumption.
    destruct (isBust_score _); [reflexivity |].
    destruct (_ =? 0); reflexivity. }
  assert (Hiff : success (processThrow this p visitScore) = false
                 <-> visitScore < 0 \/ visitScore > 180).
  { split.
    - intros Hf. destruct (Z_lt_ge_dec visitScore 0) as [Hlt | Hge]; [now left |].
      destruct (Z_gt_le_dec visitScore 180) as [Hgt | Hle]; [now right |].
      rewrite Hin in Hf by lia. discriminate.
    - intros Hv. rewrite processThrow_rejected by assumption. reflexivity. }
  split; [exact Hiff |]. split; [| exact Hin].
  intros Hf. apply Hiff in Hf.
  rewrite applyThrow_rejected, processThrow_rejected by assumption.
  simpl. repeat split.
Qed.

(** A state the engine hands out never has less than nothing left, and the
    relation between score and history is kept by every operation. *)

Lemma total_app (l : list Z) (v : Z) : total (l ++ [v]) = total l + v.
Proof.
  unfold total. induction l as [| x l IH]; simpl; lia.
Qed.

Lemma applyThrow_score_cases p v :
  let a := applyThrow this p v in
  (player a = p)
  \/ (score (player a) = score p /\ history (player a) = history p)
  \/ (score (player a) = 0 /\ score p = v /\ 0 <= v
      /\ history (player a) = history p ++ [v])
  \/ (score (player a) = score p - v /\ 0 <= v /\ 2 <= score p - v
      /\ history (player a) = history p ++ [v]).
Proof.
  destruct (visit_cases p v) as [Hr | [[Hv Hb] | [[Hv H0] | [Hv H2]]]].
  - left. simpl. rewrite applyThrow_rejected by assumption. reflexivity.
  - right; left. simpl. rewrite applyThrow_bust_eq by assumption. split; reflexivity.
  - right; right; left.
    destruct (applyThrow_checkout_fields p v Hv H0) as (_ & Hs & _ & Hh & _).
    simpl. repeat split; try assumption; lia.
  - right; right; right.
    destruct (applyThrow_scored_fields p v Hv H2) as (_ & Hs & _ & Hh & _).
    simpl. repeat split; try assumption; lia.
Qed.

Lemma reachable_score_range (p : PlayerState) :
  0 <= startingScore (config this) ->
  reachable this p -> 0 <= score p <= startingScore (config this).
Proof.
  intros Hstart Hreach.
  induction Hreach as [nm i | p v Hp IH | p Hp IH | p Hp IH]; simpl; try lia.
  destruct (applyThrow_score_cases p v)
    as [Heq | [[Hs _] | [(Hs & _) | (Hs & Hv & H2 & _)]]].
  - rewrite Heq. exact IH.
  - lia.
  - lia.
  - lia.
Qed.

Lemma reachable_score_history (p : PlayerState) :
  reachable this p ->
  score p = startingScore (config this) - total (history p).
Proof.
  intros Hreach.
  induction Hreach as [nm i | p v Hp IH | p Hp IH | p Hp IH];
    simpl; try (unfold total; simpl; lia).
  destruct (applyThrow_score_cases p v)
    as [Heq | [[Hs Hh] | [(Hs & Hsv & _ & Hh) | (Hs & _ & _ & Hh)]]].
  - rewrite Heq. exact IH.
  - rewrite Hs, Hh. exact IH.
  - rewrite Hs, Hh, total_app. lia.
  - rewrite Hs, Hh, total_app. lia.
Qed.

End Engine.

(** [legsNeeded] as the constructor computes it. *)
Lemma legsNeeded_new (cfg : MatchConfig) :
  legsNeeded (new_DartsScoringEngine cfg) =
    match matchType cfg with
    | first_to => targetLegs cfg
    | best_of => (targetLegs cfg + 1) / 2
    end.
Proof.
  unfold new_DartsScoringEngine. simpl.
  destruct (matchType cfg); [reflexivity |].
  unfold Math_ceil, Qceiling, Qfloor. simpl.
  rewrite Z.mul_1_r. change (Z.pos (1 * 2)) with 2.
  pose proof (Z.div_mod (targetLegs cfg + 1) 2 ltac:(lia)) as H1.
  pose proof (Z.mod_pos_bound (targetLegs cfg + 1) 2 ltac:(lia)) as H2.
  pose proof (Z.div_mod (- targetLegs cfg) 2 ltac:(lia)) as H3.
  pose proof (Z.mod_pos_bound (- targetLegs cfg) 2 ltac:(lia)) as H4.
  lia.
Qed.

Lemma startingScore_new (cfg : MatchConfig) :
  startingScore (config (new_DartsScoringEngine cfg)) = startingScore cfg.
Proof. reflexivity. Qed.

(** The match flag of a leg-winning visit. *)
Lemma checkout_isMatchWon (cfg : MatchConfig) (p : PlayerState) (v : Z) :
  0 <= v <= 180 -> score p - v = 0 ->
  isMatchWon (processThrow (new_DartsScoringEngine cfg) p v) = true
  <-> match matchType cfg with
      | first_to => legs p + 1 >= targetLegs cfg
      | best_of => 2 * (legs p + 1) >= targetLegs cfg
      end.
Proof.
  intros Hv H0. rewrite processThrow_checkout by assumption.
  unfold checkout. cbn [isMatchWon]. rewrite legsNeeded_new, Z.geb_leb, Z.leb_le.
  destruct (matchType cfg); [lia |].
  pose proof (Z.div_mod (targetLegs cfg + 1) 2 ltac:(lia)) as H1.
  pose proof (Z.mod_pos_bound (targetLegs cfg + 1) 2 ltac:(lia)) as H2.
  lia.
Qed.

(** For [first_to], and for [best_of] over an odd number of legs, the flag
    is the one the specification asks for. *)
Lemma checkout_isMatchWon_first_to cfg p v :
  matchType cfg = first_to -> 0 <= v <= 180 -> score p - v = 0 ->
  isMatchWon (processThrow (new_DartsScoringEngine cfg) p v) = true
  <-> legs p + 1 >= targetLegs cfg.
Proof.
  intros Hmt Hv H0. rewrite checkout_isMatchWon by assumption.
  rewrite Hmt. reflexivity.
Qed.

Lemma checkout_isMatchWon_best_of_odd cfg p v :
  matchType cfg = best_of -> Z.odd (targetLegs cfg) = true ->
  0 <= v <= 180 -> score p - v = 0 ->
  isMatchWon (processThrow (new_DartsScoringEngine cfg) p v) = true
  <-> legs p + 1 > targetLegs cfg / 2.
Proof.
  intros Hmt Hodd Hv H0. rewrite checkout_isMatchWon by assumption.
  rewrite Hmt.
  pose proof (Z.div_mod (targetLegs cfg) 2 ltac:(lia)) as H1.
  rewrite Zodd_mod in Hodd. apply Z.eqb_eq in Hodd. lia.
Qed.

(** C1. In a best-of-4 match a player with one leg who checks out 40 has
    two legs, which is not more than half of four, and [processThrow]
    reports the match as won: [legsNeeded] is [ceil(4 / 2) = 2]. *)
Theorem best_of_even_won_at_half :
  let this := new_DartsScoringEngine (config_of 501 best_of 4) in
  let r := processThrow this (on_forty 1) 40 in
  legsNeeded this = 2
  /\ isLegWon r = true
  /\ isMatchWon r = true
  /\ ~ (legs (on_forty 1) + 1 > 4 / 2).
Proof.
  cbv zeta. split; [reflexivity |]. split; [reflexivity |].
  split; [reflexivity |]. cbn [on_forty legs].
  change (4 / 2) with 2. lia.
Qed.

(** C5. With a positive starting score, every state reached from
    [createPlayerState] through [applyThrow], [resetForNewLeg] and
    [resetForNewMatch] has [0 <= score <= startingScore]: no operation
    yields a negative score or one above the starting score. *)
Theorem score_within_bounds (cfg : MatchConfig) (p : PlayerState) :
  0 < startingScore cfg ->
  reachable (new_DartsScoringEngine cfg) p ->
  0 <= score p <= startingScore cfg.
Proof.
  intros Hpos Hreach.
  rewrite <- startingScore_new.
  apply reachable_score_range; [rewrite startingScore_new; lia | exact Hreach].
Qed.

(** C10. On every state reached from [createPlayerState] the remaining
    score is the starting score less the visits recorded in the current
    leg.  From such a state: a rejected or busted visit changes neither the
    score nor the history; an ordinary visit takes from the score what it
    appends to the history; a leg-winning visit leaves score 0 and a history
    that adds up to the starting score; both resets give back the starting
    score and an empty history. *)
Theorem score_is_start_minus_history (cfg : MatchConfig) (p : PlayerState) :
  let this := new_DartsScoringEngine cfg in
  reachable this p ->
  score p = startingScore cfg - total (history p)
  /\ (forall v,
        v < 0 \/ v > 180 \/ score p - v < 0 \/ score p - v = 1 ->
        score (player (applyThrow this p v)) = score p
        /\ history (player (applyThrow this p v)) = history p)
  /\ (forall v,
        0 <= v <= 180 -> 2 <= score p - v ->
        score (player (applyThrow this p v)) = score p - v
        /\ history (player (applyThrow this p v)) = history p ++ [v])
  /\ (forall v,
        0 <= v <= 180 -> score p - v = 0 ->
        score (player (applyThrow this p v)) = 0
        /\ total (history (player (applyThrow this p v))) = startingScore cfg)
  /\ (score (resetForNewLeg this p) = startingScore cfg
      /\ history (resetForNewLeg this p) = [])
  /\ (score (resetForNewMatch this p) = startingScore cfg
      /\ history (resetForNewMatch this p) = []).
Proof.
  intros this Hreach.
  pose proof (reachable_score_history this p Hreach) as Hinv.
  subst this. rewrite startingScore_new in Hinv.
  split; [exact Hinv |]. split; [| split; [| split; [| split]]].
  - intros v Hv.
    assert (Hcase : (v < 0 \/ v > 180)
                    \/ (0 <= v <= 180 /\ (score p - v < 0 \/ score p - v = 1)))
      by lia.
    destruct Hcase as [Hr | [Hin Hb]].
    + rewrite applyThrow_rejected by assumption. split; reflexivity.
    + rewrite applyThrow_bust_eq by assumption. split; reflexivity.
  - intros v Hv H2.
    destruct (applyThrow_scored_fields (new_DartsScoringEngine cfg) p v Hv H2)
      as (_ & Hs & _ & Hh & _).
    split; assumption.
  - intros v Hv H0.
    destruct (applyThrow_checkout_fields (new_DartsScoringEngine cfg) p v Hv H0)
      as (_ & Hs & _ & Hh & _).
    split; [assumption |]. rewrite Hh, total_app. lia.
  - split; reflexivity.
  - split; reflexivity.
Qed.

(** *** Statistics *)

Lemma bump_true (c : bool) : c = true -> bump c = 1.
Proof. intros ->. reflexivity. Qed.

Lemma bump_false (c : bool) : c = false -> bump c = 0.
Proof. intros ->. reflexivity. Qed.

(** What [updateStats] adds to a bucket. *)
Lemma updateStats_bucket (s : MatchStats) (v : Z) (b : Bucket) :
  bucket_count b (updateStats s v) =
    bucket_count b s
    + bump ((fst (bucket_range b) <=? v) && (v <=? snd (bucket_range b))).
Proof.
  destruct b; simpl; f_equal; unfold bump;
    rewrite ?Z.geb_leb;
    repeat match goal with
      | |- context [?a <=? ?b] => destruct (Z.leb_spec a b)
      | |- context [?a <? ?b] => destruct (Z.ltb_spec a b)
      | |- context [?a =? ?b] => destruct (Z.eqb_spec a b)
      end; simpl; try reflexivity; lia.
Qed.

Lemma updateStats_in_range (s : MatchStats) (v : Z) (b : Bucket) :
  in_bucket_range b v ->
  bucket_count b (updateStats s v) = bucket_count b s + 1.
Proof.
  intros [Hlo Hhi]. rewrite updateStats_bucket, bump_true; [reflexivity |].
  apply andb_true_intro. split; apply Z.leb_le; assumption.
Qed.

Lemma updateStats_out_of_range (s : MatchStats) (v : Z) (b : Bucket) :
  ~ in_bucket_range b v ->
  bucket_count b (updateStats s v) = bucket_count b s.
Proof.
  intros Hout. rewrite updateStats_bucket, bump_false; [lia |].
  apply andb_false_iff. rewrite !Z.leb_gt. unfold in_bucket_range in Hout. lia.
Qed.

(** The bucket whose range holds the visit is the highest one it reaches. *)
Lemma in_range_highest_matching (b : Bucket) (v : Z) :
  v <= 180 -> in_bucket_range b v -> highest_matching v b.
Proof.
  intros Hmax Hin. unfold highest_matching. split.
  - destruct b; unfold in_bucket_range in Hin; simpl in *; lia.
  - intros b' Hb'.
    destruct b, b'; unfold in_bucket_range in Hin; simpl in *; lia.
Qed.

(** C6, as the code has it.  A visit in [65,180] raises exactly one of the
    six buckets by one, the one whose range ([65,89], [90,99], [100,139],
    [140,169], [170,179], 180) holds it, which is the highest threshold the
    visit reaches, and leaves the other five as they were; a visit in
    [0,64] leaves all six as they were. *)
Theorem updateStats_one_bucket (s : MatchStats) (v : Z) :
  (65 <= v <= 180 ->
   exists b,
     in_bucket_range b v
     /\ highest_matching v b
     /\ bucket_count b (updateStats s v) = bucket_count b s + 1
     /\ forall b', b' <> b ->
          bucket_count b' (updateStats s v) = bucket_count b' s)
  /\ (0 <= v <= 64 ->
      forall b, bucket_count b (updateStats s v) = bucket_count b s).
Proof.
  split.
  - intros Hv.
    assert (Hb : exists b, in_bucket_range b v).
    { destruct (Z_lt_ge_dec v 90); [exists B65 |
      destruct (Z_lt_ge_dec v 100); [exists B90 |
      destruct (Z_lt_ge_dec v 140); [exists B100 |
      destruct (Z_lt_ge_dec v 170); [exists B140 |
      destruct (Z_lt_ge_dec v 180); [exists B170 | exists B180]]]]];
      unfold in_bucket_range; simpl; lia. }
    destruct Hb as [b Hin]. exists b.
    split; [exact Hin |].
    split; [apply in_range_highest_matching; [lia | exact Hin] |].
    split; [apply updateStats_in_range; exact Hin |].
    intros b' Hne. apply updateStats_out_of_range.
    destruct b, b'; unfold in_bucket_range in *; simpl in *;
      try congruence; lia.
  - intros Hv b. apply updateStats_out_of_range.
    destruct b; unfold in_bucket_range; simpl; lia.
Qed.

(** C6 as stated fails below 65: a visit of 50 raises none of the buckets. *)
Lemma updateStats_50_raises_no_bucket :
  0 <= 50 <= 180
  /\ ~ exists b,
        bucket_count b (updateStats INITIAL_MATCH_STATS 50)
        = bucket_count b INITIAL_MATCH_STATS + 1.
Proof.
  split; [lia |]. intros [b Hb]. destruct b; discriminate Hb.
Qed.

(** *** The 3-dart average *)

Lemma fold_left_add (l : list Z) (acc : Z) :
  fold_left (fun sum x => sum + x) l acc = acc + total l.
Proof.
  revert acc. induction l as [| x l IH]; intros acc; simpl.
  - unfold total. simpl. lia.
  - rewrite IH. unfold total. simpl. lia.
Qed.

Lemma sum_reduce_total (l : list Z) : sum_reduce l = total l.
Proof. unfold sum_reduce. rewrite fold_left_add. lia. Qed.

(** [Math.round] is within a half of its argument. *)
Lemma Math_round_bounds (x : Q) :
  (inject_Z (Math_round x) <= x + (1 # 2))%Q
  /\ (x + (1 # 2) < inject_Z (Math_round x) + 1)%Q.
Proof.
  unfold Math_round. split.
  - apply Qfloor_le.
  - pose proof (Qlt_floor (x + (1 # 2))) as H.
    rewrite inject_Z_plus in H. exact H.
Qed.

Lemma calculateAverage_nonempty (h : list Z) :
  h <> [] ->
  calculateAverage h = (inject_Z (Math_round (mean h * 100)) / 100)%Q.
Proof.
  intros Hne. unfold calculateAverage, mean.
  destruct (Z.eqb_spec (Z.of_nat (length h)) 0) as [H0 | _].
  - destruct h; [congruence | simpl in H0; lia].
  - rewrite sum_reduce_total. reflexivity.
Qed.

(** *** The theorems at concrete visits *)

(** On 40, a visit of 39 would leave 1: a bust, and only the darts move. *)
Lemma applyThrow_bust_on_forty :
  let this := new_DartsScoringEngine (config_of 501 first_to 3) in
  let a := applyThrow this (on_forty 1) 39 in
  isBust (result a) = true
  /\ score (player a) = 40
  /\ dartsThrown (player a) = 15
  /\ history (player a) = [100; 140; 121; 100]
  /\ matchHistory (player a) = [100; 140; 121; 100]
  /\ legs (player a) = 1
  /\ sets (player a) = Some 0
  /\ stats (player a) = INITIAL_MATCH_STATS.
Proof.
  exact (applyThrow_bust
           (new_DartsScoringEngine (config_of 501 first_to 3)) (on_forty 1) 39
           ltac:(lia) (or_intror eq_refl)).
Defined.

(** On 159, which is no valid checkout, a visit of 159 wins the leg. *)
Lemma checkout_wins_leg_on_159 :
  includes VALID_CHECKOUTS 159 = false
  /\ let this := new_DartsScoringEngine (config_of 501 first_to 3) in
     let r := processThrow this on_159 159 in
     let a := applyThrow this on_159 159 in
     isLegWon r = true /\ newScore r = 0
     /\ result a = r
     /\ legs (player a) = 1
     /\ history (player a) = [180; 162; 159]
     /\ matchHistory (player a) = [180; 162; 159]
     /\ score (player a) = 0
     /\ dartsThrown (player a) = 0.
Proof.
  split; [reflexivity |].
  exact (checkout_wins_leg
           (new_DartsScoringEngine (config_of 501 first_to 3)) on_159 159
           ltac:(lia) eq_refl).
Defined.

(** On 40, a visit of 181 is rejected and the state comes back as it was. *)
Lemma processThrow_rejects_181 :
  let this := new_DartsScoringEngine (config_of 501 first_to 3) in
  newScore (processThrow this (on_forty 1) 181) = 40
  /\ message (processThrow this (on_forty 1) 181)
     = Some "Invalid score. Maximum is 180."
  /\ player (applyThrow this (on_forty 1) 181) = on_forty 1.
Proof.
  exact (proj1 (proj2 (processThrow_rejects_out_of_range
                         (new_DartsScoringEngine (config_of 501 first_to 3))
                         (on_forty 1) 181))
           eq_refl).
Defined.

(** A maximum raises one bucket. *)
Lemma updateStats_one_bucket_at_180 :
  exists b,
    in_bucket_range b 180
    /\ highest_matching 180 b
    /\ bucket_count b (updateStats INITIAL_MATCH_STATS 180)
       = bucket_count b INITIAL_MATCH_STATS + 1
    /\ forall b', b' <> b ->
         bucket_count b' (updateStats INITIAL_MATCH_STATS 180)
         = bucket_count b' INITIAL_MATCH_STATS.
Proof.
  exact (proj1 (updateStats_one_bucket INITIAL_MATCH_STATS 180) ltac:(lia)).
Defined.

(** The scenarios of the specification. *)

Example opening_140 :
  let this := new_DartsScoringEngine (config_of 501 first_to 3) in
  processThrow this (createPlayerState this "Ann" None) 140
  = {| success := true; newScore := 361; isBust := false; isLegWon := false;
       isMatchWon := false; message := None |}.
Proof. reflexivity. Qed.

Example forty_out_wins_match :
  let this := new_DartsScoringEngine (config_of 501 first_to 3) in
  processThrow this (on_forty 2) 40
  = {| success := true; newScore := 0; isBust := false; isLegWon := true;
       isMatchWon := true; message := Some "Match won!" |}.
Proof. reflexivity. Qed.

Example forty_five_on_forty_busts :
  let this := new_DartsScoringEngine (config_of 501 first_to 3) in
  processThrow this (on_forty 2) 45
  = {| success := true; newScore := 40; isBust := true; isLegWon := false;
       isMatchWon := false; message := Some "Bust!" |}.
Proof. reflexivity. Qed.

(** After an opening 140 the score lies between 0 and 501. *)
Lemma score_within_bounds_after_140 :
  let this := new_DartsScoringEngine (config_of 501 first_to 3) in
  0 <= score (player (applyThrow this (createPlayerState this "Ann" None) 140))
    <= 501.
Proof.
  exact (score_within_bounds (config_of 501 first_to 3) _ ltac:(simpl; lia)
           (reach_applyThrow _ _ 140 (reach_create _ "Ann" None))).
Defined.

(** After an opening 140 and a reset the score is 501 less the history. *)
Lemma score_is_start_minus_history_after_140 :
  let this := new_DartsScoringEngine (config_of 501 first_to 3) in
  let p := player (applyThrow this (createPlayerState this "Ann" None) 140) in
  score p = 501 - total (history p)
  /\ score (resetForNewLeg this p) = 501
  /\ history (resetForNewLeg this p) = [].
Proof.
  pose proof (score_is_start_minus_history (config_of 501 first_to 3) _
                (reach_applyThrow _ _ 140 (reach_create _ "Ann" None)))
    as (Hinv & _ & _ & _ & Hleg & _).
  exact (conj Hinv Hleg).
Defined.

End ScoringProps.

(** * Properties of the checkout table *)

Module CheckoutProps.
Import JS Types Constants Scoring Vocabulary.

(** A property checked on every element of a range holds throughout it. *)
Lemma Zrange_forallb (P : Z -> bool) (lo : Z) (n : nat) :
  forallb P (Zrange lo n) = true ->
  forall s, lo <= s < lo + Z.of_nat n -> P s = true.
Proof.
  intros Hall s Hs. rewrite forallb_forall in Hall. apply Hall.
  unfold Zrange. apply in_map_iff. exists (Z.to_nat (s - lo)).
  split; [lia |]. apply in_seq. lia.
Qed.

(** *** The board: which scores can be finished in three darts *)

Lemma reachable_in_threeb_spec (s : Z) :
  Board.reachable_in_three s <-> Board.reachable_in_threeb s = true.
Proof.
  unfold Board.reachable_in_three, Board.reachable_in_threeb. split.
  - intros (a & b & d & Ha & Hb & Hd & ->).
    apply existsb_exists. exists a. split; [apply list_elem_of_In, Ha |].
    apply existsb_exists. exists b. split; [apply list_elem_of_In, Hb |].
    apply existsb_exists. exists d. split; [apply list_elem_of_In, Hd |].
    apply Z.eqb_refl.
  - intros H.
    apply existsb_exists in H. destruct H as (a & Ha & H).
    apply existsb_exists in H. destruct H as (b & Hb & H).
    apply existsb_exists in H. destruct H as (d & Hd & H).
    apply Z.eqb_eq in H. exists a, b, d.
    repeat split; try apply list_elem_of_In; assumption.
Qed.

Lemma dart_scores_range (a : Z) : a ∈ Board.dart_scores -> 0 <= a <= 60.
Proof.
  intros Ha. apply list_elem_of_In in Ha.
  assert (Hall : forallb (fun x => (0 <=? x) && (x <=? 60)) Board.dart_scores = true)
    by (vm_compute; reflexivity).
  rewrite forallb_forall in Hall. specialize (Hall a Ha).
  apply andb_true_iff in Hall. rewrite !Z.leb_le in Hall. exact Hall.
Qed.

Lemma doubles_range (d : Z) : d ∈ Board.doubles -> 2 <= d <= 50.
Proof.
  intros Hd. apply list_elem_of_In in Hd.
  assert (Hall : forallb (fun x => (2 <=? x) && (x <=? 50)) Board.doubles = true)
    by (vm_compute; reflexivity).
  rewrite forallb_forall in Hall. specialize (Hall d Hd).
  apply andb_true_iff in Hall. rewrite !Z.leb_le in Hall. exact Hall.
Qed.

Lemma reachable_in_three_range (s : Z) :
  Board.reachable_in_three s -> 2 <= s <= 170.
Proof.
  intros (a & b & d & Ha & Hb & Hd & ->).
  apply dart_scores_range in Ha, Hb. apply doubles_range in Hd. lia.
Qed.

Lemma includes_spec (l : list Z) (x : Z) : includes l x = true <-> x ∈ l.
Proof.
  unfold includes. rewrite existsb_exists, list_elem_of_In. split.
  - intros (y & Hy & Heq). apply Z.eqb_eq in Heq. subst y. exact Hy.
  - intros Hx. exists x. split; [exact Hx | apply Z.eqb_refl].
Qed.

(** Within [2,170] the scores that cannot be finished are the seven of
    [INVALID_CHECKOUTS], and no other. *)
Lemma reachable_in_three_iff (s : Z) :
  Board.reachable_in_three s <-> 2 <= s <= 170 /\ s ∉ INVALID_CHECKOUTS.
Proof.
  assert (Hscan : forall x, 2 <= x < 2 + Z.of_nat 169 ->
            Bool.eqb (Board.reachable_in_threeb x)
                     (negb (includes INVALID_CHECKOUTS x)) = true).
  { apply Zrange_forallb. vm_compute. reflexivity. }
  split.
  - intros Hr. pose proof (reachable_in_three_range s Hr) as Hs.
    split; [exact Hs |]. intros Hin. apply includes_spec in Hin.
    specialize (Hscan s ltac:(lia)). apply reachable_in_threeb_spec in Hr.
    rewrite Hr, Hin in Hscan. discriminate.
  - intros [Hs Hnin]. apply reachable_in_threeb_spec.
    specialize (Hscan s ltac:(lia)).
    destruct (includes INVALID_CHECKOUTS s) eqn:Hinc.
    + apply includes_spec in Hinc. contradiction.
    + apply Bool.eqb_prop in Hscan. exact Hscan.
Qed.

(** *** The table *)

Lemma table_keys_range (s : Z) :
  s ∈ CHECKOUT_ENTRIES.*1 -> 2 <= s <= 170.
Proof.
  intros Hs. apply list_elem_of_In in Hs.
  assert (Hall : forallb (fun x => (2 <=? x) && (x <=? 170))
                   (CHECKOUT_ENTRIES.*1) = true)
    by (vm_compute; reflexivity).
  rewrite forallb_forall in Hall. specialize (Hall s Hs).
  apply andb_true_iff in Hall. rewrite !Z.leb_le in Hall. exact Hall.
Qed.

Lemma getSuggestedCheckout_outside (s : Z) :
  s < 2 \/ 170 < s -> getSuggestedCheckout s = None.
Proof.
  intros Hs. unfold getSuggestedCheckout, getCheckoutSuggestion, CHECKOUT_TABLE.
  apply not_elem_of_list_to_map_1. intros Hin.
  apply table_keys_range in Hin. lia.
Qed.

(** Inside [2,170] the table is read off entry by entry. *)
Lemma getSuggestedCheckout_inside (s : Z) :
  2 <= s <= 170 ->
  (tabulated s = true -> is_Some (getSuggestedCheckout s))
  /\ (includes INVALID_CHECKOUTS s = true \/ odd_below_40 s = true ->
      getSuggestedCheckout s = None).
Proof.
  intros Hs.
  assert (Hscan : forall x, 2 <= x < 2 + Z.of_nat 169 ->
            (implb (tabulated x)
                   (bool_decide (is_Some (getSuggestedCheckout x))))
            && (implb (includes INVALID_CHECKOUTS x || odd_below_40 x)
                      (negb (bool_decide (is_Some (getSuggestedCheckout x))))) = true).
  { apply Zrange_forallb. vm_compute. reflexivity. }
  specialize (Hscan s ltac:(lia)). apply andb_true_iff in Hscan.
  destruct Hscan as [H1 H2]. split.
  - intros Ht. rewrite Ht in H1. cbn [implb] in H1.
    apply bool_decide_eq_true in H1. exact H1.
  - intros Hn.
    assert (Hor : includes INVALID_CHECKOUTS s || odd_below_40 s = true)
      by (apply orb_true_iff; exact Hn).
    rewrite Hor in H2. cbn [implb] in H2.
    apply negb_true_iff, bool_decide_eq_false in H2.
    destruct (getSuggestedCheckout s) as [finish |] eqn:Hget;
      [exfalso; apply H2; eauto | reflexivity].
Qed.

(** A score that can be finished, is not an odd score below 40 and is not
    149, is one of the tabulated ones. *)
Lemma reachable_tabulated (s : Z) :
  Board.reachable_in_three s -> odd_below_40 s = false -> s <> 149 ->
  tabulated s = true.
Proof.
  intros Hr Hodd H149. apply reachable_in_three_iff in Hr.
  destruct Hr as [Hs Hnin].
  assert (Hscan : forall x, 2 <= x < 2 + Z.of_nat 169 ->
            tabulated x || odd_below_40 x || (x =? 149)
            || includes INVALID_CHECKOUTS x = true).
  { apply Zrange_forallb. vm_compute. reflexivity. }
  specialize (Hscan s ltac:(lia)).
  rewrite Hodd in Hscan. destruct (Z.eqb_spec s 149); [contradiction |].
  destruct (includes INVALID_CHECKOUTS s) eqn:Hinc.
  - apply includes_spec in Hinc. contradiction.
  - rewrite !orb_false_r in Hscan. exact Hscan.
Qed.

(** C7, as the code has it.  For every score that can be finished in three
    darts, other than 149 and the odd scores from 3 to 39,
    [getSuggestedCheckout] returns a finish; for every score outside
    [2,170], for each of the seven scores 159, 162, 163, 165, 166, 168 and
    169, and for the odd scores from 3 to 39, it returns [null]. *)
Theorem getSuggestedCheckout_table (s : Z) :
  (Board.reachable_in_three s -> odd_below_40 s = false -> s <> 149 ->
   exists finish, getSuggestedCheckout s = Some finish)
  /\ (s < 2 \/ 170 < s \/ s ∈ INVALID_CHECKOUTS \/ odd_below_40 s = true ->
      getSuggestedCheckout s = None).
Proof.
  split.
  - intros Hr Hodd H149.
    pose proof (reachable_in_three_range s Hr) as Hs.
    apply (getSuggestedCheckout_inside s Hs).
    apply reachable_tabulated; assumption.
  - intros Hcase.
    destruct (Z_lt_ge_dec s 2) as [Hlo | Hlo];
      [apply getSuggestedCheckout_outside; lia |].
    destruct (Z_lt_ge_dec 170 s) as [Hhi | Hhi];
      [apply getSuggestedCheckout_outside; lia |].
    apply (getSuggestedCheckout_inside s ltac:(lia)).
    destruct Hcase as [H | [H | [H | H]]]; try lia.
    + left. apply includes_spec. exact H.
    + right. exact H.
Qed.

(** C7 as stated fails: 3 (single 1, double 1) and 149 (treble 20,
    treble 19, double 16) can be finished in three darts and lie in
    [2,170], and the table has no finish for either. *)
Lemma getSuggestedCheckout_misses_3_and_149 :
  (Board.reachable_in_three 3 /\ 2 <= 3 <= 170 /\ getSuggestedCheckout 3 = None)
  /\ (Board.reachable_in_three 149 /\ 2 <= 149 <= 170
      /\ getSuggestedCheckout 149 = None).
Proof.
  split; (split; [| split; [lia | vm_compute; reflexivity]]).
  - exists 0, 1, 2. repeat split; try (vm_compute; reflexivity);
      apply list_elem_of_In; vm_compute; tauto.
  - exists 60, 57, 32. repeat split; try (vm_compute; reflexivity);
      apply list_elem_of_In; vm_compute; tauto.
Qed.

(** 170 is finished on two treble 20s and the bull, and is tabulated. *)
Lemma getSuggestedCheckout_table_at_170 :
  exists finish, getSuggestedCheckout 170 = Some finish.
Proof.
  refine (proj1 (getSuggestedCheckout_table 170) _ eq_refl _).
  - exists 60, 60, 50.
    repeat split; try reflexivity; apply list_elem_of_In; vm_compute; tauto.
  - lia.
Defined.

End CheckoutProps.

(** * Properties of the bot *)

Module BotProps.
Import JS Constants Bot.
Import Vocabulary (beginner, always_zero, always_half).

Lemma bind_run {A B : Type} (c : Rand A) (k : A -> Rand B)
    (src : RandomSource) (n : nat) :
  bind c k src n = k (fst (c src n)) src (snd (c src n)).
Proof. unfold bind. destruct (c src n). reflexivity. Qed.

(** [Math.floor(Math.random() * m)] is one of [0 .. m - 1]. *)
Lemma Math_floor_scaled (r : Q) (m : Z) :
  0 < m -> (0 <= r)%Q -> (r < 1)%Q ->
  0 <= Math_floor (r * inject_Z m) < m.
Proof.
  intros Hm H0 H1. unfold Math_floor.
  assert (Hmq : (0 < inject_Z m)%Q).
  { change 0%Q with (inject_Z 0). rewrite <- Zlt_Qlt. exact Hm. }
  split.
  - change 0 with (Qfloor 0). apply Qfloor_resp_le.
    apply Qmult_le_0_compat; [exact H0 | apply Qlt_le_weak, Hmq].
  - rewrite Zlt_Qlt. eapply Qle_lt_trans; [apply Qfloor_le |].
    rewrite <- (Qmult_1_l (inject_Z m)) at 2.
    apply Qmult_lt_compat_r; assumption.
Qed.

(** [Math.floor(n / 2)] on an integer is the integer quotient. *)
Lemma Math_floor_half (n : Z) : Math_floor (inject_Z n / 2) = n / 2.
Proof.
  unfold Math_floor, Qfloor. simpl. rewrite Z.mul_1_r. reflexivity.
Qed.

Section Engine.

Variable level : BotLevel.
Variable boxMuller : Q -> Q -> Q.
Variable src : RandomSource.
Hypothesis src_uniform : uniform src.

Lemma draw_floor (n : nat) (m : Z) :
  0 < m -> 0 <= Math_floor (src n * inject_Z m) < m.
Proof.
  intros Hm. destruct (src_uniform n) as [H0 H1].
  apply Math_floor_scaled; assumption.
Qed.

Lemma getIdealLeave_range (n : nat) :
  exists leave,
    fst (getIdealLeave level src n) = Some leave /\ 8 <= leave <= 40.
Proof.
  unfold getIdealLeave. destruct (avg level >=? 80).
  - exists 32. split; [reflexivity | lia].
  - rewrite bind_run. cbn [Math_random ret fst snd].
    change (Z.of_nat (length GOOD_LEAVES)) with 7.
    pose proof (draw_floor n 7 ltac:(lia)) as Hidx.
    set (idx := Math_floor (src n * inject_Z 7)) in *.
    assert (Hcases : idx = 0 \/ idx = 1 \/ idx = 2 \/ idx = 3
                     \/ idx = 4 \/ idx = 5 \/ idx = 6) by lia.
    destruct Hcases as [-> | [-> | [-> | [-> | [-> | [-> | ->]]]]]];
      eexists; (split; [reflexivity | lia]).
Qed.

Lemma attemptCheckout_range (currentScore : Z) (n : nat) :
  0 <= currentScore <= 180 ->
  exists v,
    fst (attemptCheckout level currentScore src n) = Some v /\ 0 <= v <= 180.
Proof.
  intros Hcs. unfold attemptCheckout.
  rewrite bind_run. cbn [Math_random fst snd].
  destruct (Qltb (src n) (checkoutRate level)).
  - exists currentScore. split; [reflexivity | lia].
  - destruct (Z.leb_spec currentScore 40) as [Hlow | Hhigh].
    + rewrite bind_run. cbn [Math_random ret fst snd].
      rewrite Math_floor_half.
      pose proof (draw_floor (S n) 10 ltac:(lia)) as Hvar.
      change (inject_Z 10) with 10%Q in Hvar.
      eexists. split; [reflexivity |].
      unfold Math_max.
      pose proof (Z.div_mod currentScore 2 ltac:(lia)) as Hdiv.
      pose proof (Z.mod_pos_bound currentScore 2 ltac:(lia)) as Hmod.
      lia.
    + rewrite bind_run.
      destruct (getIdealLeave_range (S n)) as (leave & Hleave & _).
      rewrite Hleave. rewrite bind_run. cbn [Math_random ret fst snd].
      eexists. split; [reflexivity |]. unfold Math_max, Math_min. lia.
Qed.

Lemma generateScoringVisit_range (currentScore : Z) (n : nat) :
  exists v,
    fst (generateScoringVisit level boxMuller currentScore src n) = Some v
    /\ 0 <= v <= 180.
Proof.
  unfold generateScoringVisit.
  rewrite bind_run. cbn [Math_random fst snd].
  rewrite bind_run. cbn [Math_random fst snd].
  set (sample :=
         Math_round (inject_Z (avg level)
                     + boxMuller (src n) (src (S n)) * inject_Z (consistency level))).
  set (score := Math_max 0 (Math_min 180 sample)).
  assert (Hscore : 0 <= score <= 180)
    by (unfold score, Math_max, Math_min; lia).
  destruct ((currentScore - score <=? 1) && (currentScore >? 40)) eqn:Hnear.
  - apply andb_true_iff in Hnear. destruct Hnear as [Hle Hgt].
    apply Z.leb_le in Hle. rewrite Z.gtb_ltb in Hgt. apply Z.ltb_lt in Hgt.
    rewrite bind_run.
    destruct (getIdealLeave_range (S (S n))) as (leave & Hleave & Hrange).
    rewrite Hleave. rewrite Z.gtb_ltb.
    destruct (Z.ltb_spec leave currentScore).
    + eexists. split; [reflexivity | lia].
    + eexists. split; [reflexivity | unfold Math_max; lia].
  - exists score. split; [reflexivity | exact Hscore].
Qed.

Lemma generateScore_range (currentScore : Z) (n : nat) :
  0 <= currentScore ->
  exists v,
    fst (generateScore level boxMuller currentScore src n) = Some v
    /\ 0 <= v <= 180.
Proof.
  intros Hcs. unfold generateScore.
  destruct ((currentScore <=? 170)
            && negb (includes INVALID_CHECKOUTS currentScore)) eqn:Hcan.
  - apply andb_true_iff in Hcan. destruct Hcan as [Hle _].
    apply Z.leb_le in Hle. apply attemptCheckout_range. lia.
  - apply generateScoringVisit_range.
Qed.

End Engine.

(** C8, as the code has it.  For every level of the catalogue, every
    remaining score that is not negative, every value of the Box-Muller
    variate and every sequence of draws in [[0,1)], [generateScore] returns
    a number, and that number lies in [0,180]. *)
Theorem generateScore_in_range
    (level : BotLevel) (boxMuller : Q -> Q -> Q)
    (src : RandomSource) (currentScore : Z) (n : nat) :
  level ∈ BOT_LEVELS ->
  uniform src ->
  0 <= currentScore ->
  exists v n',
    generateScore level boxMuller currentScore src n = (Some v, n')
    /\ 0 <= v <= 180.
Proof.
  intros _ Hsrc Hcs.
  destruct (generateScore_range level boxMuller src Hsrc currentScore n Hcs)
    as (v & Hv & Hrange).
  destruct (generateScore level boxMuller currentScore src n) as [r n'] eqn:Hrun.
  exists v, n'. simpl in Hv. subst r. split; [reflexivity | exact Hrange].
Qed.

(** C8 as stated fails for a negative score: on -5 the beginner bot, with a
    first draw of 0 (below its checkout rate 0.05), returns -5. *)
Lemma generateScore_negative_score :
  exists level,
    level ∈ BOT_LEVELS
    /\ uniform always_zero
    /\ generateScore level (fun _ _ => 0%Q) (-5) always_zero 0%nat
       = (Some (-5), 1%nat)
    /\ ~ (0 <= -5 <= 180).
Proof.
  exists beginner.
  split; [apply list_elem_of_here |].
  split; [intros n; split; [apply Qle_refl | reflexivity] |].
  split; [reflexivity | lia].
Qed.

Lemma always_half_uniform : uniform always_half.
Proof. intros n. split; [discriminate | reflexivity]. Qed.

(** The beginner bot on 501 with every draw one half. *)
Lemma generateScore_in_range_on_501 :
  exists v n',
    generateScore beginner (fun _ _ => 1%Q) 501 always_half 0%nat = (Some v, n')
    /\ 0 <= v <= 180.
Proof.
  exact (generateScore_in_range beginner (fun _ _ => 1%Q) always_half 501 0%nat
           (list_elem_of_here _ _) always_half_uniform ltac:(lia)).
Defined.

End BotProps.

(** * More properties of the scoring engine *)

Module ScoringMore.
Import JS Types Constants Scoring Vocabulary Measures ScoringUtil.
Import ScoringProps (processThrow_rejected, processThrow_bust,
  processThrow_checkout, processThrow_scored, visit_cases,
  applyThrow_rejected, applyThrow_bust_eq, applyThrow_checkout_fields,
  applyThrow_scored_fields, total_app, legsNeeded_new, updateStats_bucket,
  calculateAverage_nonempty, Math_round_bounds, sum_reduce_total).

Section Engine.

Variable this : DartsScoringEngine.

(** X1. The flags of a result exclude one another. *)
Theorem processThrow_flags (p : PlayerState) (v : Z) :
  let r := processThrow this p v in
  (success r = false ->
     isBust r = false /\ isLegWon r = false /\ isMatchWon r = false
     /\ newScore r = score p)
  /\ (isBust r = true ->
      isLegWon r = false /\ isMatchWon r = false /\ newScore r = score p)
  /\ (isLegWon r = true -> isBust r = false /\ newScore r = 0 /\ score p = v)
  /\ (isMatchWon r = true -> isLegWon r = true)
  /\ (success r = true -> isBust r = false -> isLegWon r = false ->
      newScore r = score p - v /\ 2 <= newScore r).
Proof.
  cbv zeta.
  destruct (visit_cases p v) as [Hr | [[Hv Hb] | [[Hv H0] | [Hv H2]]]].
  - rewrite processThrow_rejected by assumption. simpl.
    repeat split; intros; try discriminate; reflexivity.
  - rewrite processThrow_bust by assumption. simpl.
    repeat split; intros; try discriminate; reflexivity.
  - rewrite processThrow_checkout by assumption. unfold checkout.
    cbn [success isBust isLegWon isMatchWon newScore].
    repeat split; intros; try discriminate; try reflexivity; lia.
  - rewrite processThrow_scored by assumption. simpl.
    repeat split; intros; try discriminate; try reflexivity; lia.
Qed.

Lemma applyThrow_result (p : PlayerState) (v : Z) :
  result (applyThrow this p v) = processThrow this p v.
Proof.
  unfold applyThrow.
  destruct (success (processThrow this p v)); [| reflexivity].
  destruct (isBust (processThrow this p v)); [reflexivity |].
  destruct (isLegWon (processThrow this p v)); reflexivity.
Qed.

(** X2. What a visit changes. *)
Theorem applyThrow_effect (p : PlayerState) (v : Z) :
  let a := applyThrow this p v in
  let recorded := success (result a) && negb (isBust (result a)) in
  result a = processThrow this p v
  /\ history (player a) = (if recorded then history p ++ [v] else history p)
  /\ matchHistory (player a)
     = (if recorded then matchHistory p ++ [v] else matchHistory p)
  /\ score (player a) = (if recorded then score p - v else score p)
  /\ legs (player a) = legs p + bump (isLegWon (result a))
  /\ id (player a) = id p /\ name (player a) = name p
  /\ sets (player a) = sets p.
Proof.
  cbv zeta. split; [apply applyThrow_result |].
  destruct (visit_cases p v) as [Hr | [[Hv Hb] | [[Hv H0] | [Hv H2]]]].
  - rewrite applyThrow_rejected by assumption. simpl.
    repeat split; lia.
  - rewrite applyThrow_bust_eq by assumption. simpl.
    repeat split; lia.
  - destruct (applyThrow_checkout_fields this p v Hv H0)
      as (Hr & Hs & Hl & Hh & Hm & Hd & Hi & Hn & Hsets).
    rewrite Hr. unfold checkout.
    cbn [success isBust isLegWon negb andb bump].
    repeat split; try assumption. lia.
  - destruct (applyThrow_scored_fields this p v Hv H2)
      as (Hr & Hs & Hl & Hh & Hm & Hd & Hi & Hn & Hsets).
    rewrite Hr. simpl. repeat split; try assumption. lia.
Qed.

(** The statistics after a recorded visit. *)

Lemma applyThrow_scored_stats p v :
  0 <= v <= 180 -> 2 <= score p - v ->
  stats (player (applyThrow this p v))
  = set_average_history (updateStats (stats p) v)
      (calculateAverage (matchHistory p ++ [v])) (matchHistory p ++ [v])
  /\ dartsThrown (player (applyThrow this p v)) = dartsThrown p + 3.
Proof.
  intros Hv H2. unfold applyThrow.
  rewrite processThrow_scored by assumption. split; reflexivity.
Qed.

Lemma applyThrow_checkout_stats p v :
  0 <= v <= 180 -> score p - v = 0 ->
  stats (player (applyThrow this p v))
  = set_average_history
      (let s1 := updateBestLeg (updateStats (stats p) v) (dartsThrown p + 3) in
       if negb (truthy (highest_checkout s1))
          || match highest_checkout s1 with
             | Some h => score p >? h
             | None => false
             end
       then set_highest_checkout s1 (Some (score p))
       else s1)
      (calculateAverage (matchHistory p ++ [v])) (matchHistory p ++ [v])
  /\ dartsThrown (player (applyThrow this p v)) = 0.
Proof.
  intros Hv H0. unfold applyThrow.
  rewrite processThrow_checkout by assumption. split; reflexivity.
Qed.

(** To show that a property holds of every reachable state it is enough
    to follow the four kinds of visit and the two resets. *)
Lemma reachable_cases (I : PlayerState -> Prop) :
  (forall nm i, I (createPlayerState this nm i)) ->
  (forall p, reachable this p -> I p -> I (after_bust p)) ->
  (forall p v, reachable this p -> I p -> 0 <= v <= 180 -> score p - v = 0 ->
     I (player (applyThrow this p v))) ->
  (forall p v, reachable this p -> I p -> 0 <= v <= 180 -> 2 <= score p - v ->
     I (player (applyThrow this p v))) ->
  (forall p, reachable this p -> I p -> I (resetForNewLeg this p)) ->
  (forall p, reachable this p -> I p -> I (resetForNewMatch this p)) ->
  forall p, reachable this p -> I p.
Proof.
  intros Hcreate Hbust Hout Hscore Hleg Hmatch p Hreach.
  induction Hreach as [nm i | p v Hp IH | p Hp IH | p Hp IH].
  - apply Hcreate.
  - destruct (visit_cases p v) as [Hr | [[Hv Hb] | [[Hv H0] | [Hv H2]]]].
    + rewrite applyThrow_rejected by assumption. exact IH.
    + rewrite applyThrow_bust_eq by assumption. apply Hbust; assumption.
    + apply Hout; assumption.
    + apply Hscore; assumption.
  - apply Hleg; assumption.
  - apply Hmatch; assumption.
Qed.

(** Setting the average, the best leg or the highest checkout leaves the
    buckets alone. *)
Lemma bucket_count_recorded (b : Bucket) (s : MatchStats) (a : Q) (h : list Z) :
  bucket_count b (set_average_history s a h) = bucket_count b s.
Proof. destruct b; reflexivity. Qed.

Lemma bucket_count_highest (b : Bucket) (s : MatchStats) (o : option Z) :
  bucket_count b (set_highest_checkout s o) = bucket_count b s.
Proof. destruct b; reflexivity. Qed.

Lemma bucket_count_updateBestLeg (b : Bucket) (s : MatchStats) (d : Z) :
  bucket_count b (updateBestLeg s d) = bucket_count b s.
Proof.
  unfold updateBestLeg. destruct (best_leg s) as [best |].
  - destruct (d <? best); destruct b; reflexivity.
  - destruct b; reflexivity.
Qed.

Lemma best_leg_updateBestLeg (s : MatchStats) (d : Z) :
  best_leg (updateBestLeg s d) = Some (best_of_legs (best_leg s) d).
Proof.
  unfold updateBestLeg, best_of_legs.
  destruct (best_leg s) as [best |] eqn:Hbest; [| reflexivity].
  destruct (Z.ltb_spec d best); simpl; [| rewrite Hbest]; f_equal; lia.
Qed.

Lemma highest_checkout_updateBestLeg (s : MatchStats) (d : Z) :
  highest_checkout (updateBestLeg s d) = highest_checkout s.
Proof.
  unfold updateBestLeg. destruct (best_leg s) as [best |]; [| reflexivity].
  destruct (d <? best); reflexivity.
Qed.

Lemma visits_in_bucket_app (b : Bucket) (l : list Z) (v : Z) :
  visits_in_bucket b (l ++ [v])
  = visits_in_bucket b l + bump (in_bucket_rangeb b v).
Proof.
  unfold visits_in_bucket. rewrite map_app. simpl. apply total_app.
Qed.

Lemma reachable_histories (p : PlayerState) :
  reachable this p ->
  (exists earlier, matchHistory p = earlier ++ history p)
  /\ Forall admissible (matchHistory p).
Proof.
  revert p. apply reachable_cases.
  - intros nm i. split; [exists []; reflexivity | constructor].
  - intros p _ IH. exact IH.
  - intros p v _ [[earlier He] Hall] Hv H0.
    destruct (applyThrow_checkout_fields this p v Hv H0)
      as (_ & _ & _ & Hh & Hm & _).
    rewrite Hh, Hm. split.
    + exists earlier. rewrite He at 1. symmetry. apply app_assoc.
    + apply Forall_app. split; [exact Hall |]. repeat constructor; apply Hv.
  - intros p v _ [[earlier He] Hall] Hv H2.
    destruct (applyThrow_scored_fields this p v Hv H2)
      as (_ & _ & _ & Hh & Hm & _).
    rewrite Hh, Hm. split.
    + exists earlier. rewrite He at 1. symmetry. apply app_assoc.
    + apply Forall_app. split; [exact Hall |]. repeat constructor; apply Hv.
  - intros p _ [_ Hall]. split; [| exact Hall].
    exists (matchHistory p). simpl. symmetry. apply app_nil_r.
  - intros p _ _. split; [exists []; reflexivity | constructor].
Qed.

Lemma reachable_stats_mirror (p : PlayerState) :
  reachable this p ->
  average (stats p) = calculateAverage (matchHistory p)
  /\ (visit_history (stats p) = Some (matchHistory p)
      \/ (visit_history (stats p) = None /\ matchHistory p = [])).
Proof.
  revert p. apply reachable_cases.
  - intros nm i. split; [reflexivity | right; split; reflexivity].
  - intros p _ IH. exact IH.
  - intros p v _ _ Hv H0.
    destruct (applyThrow_checkout_stats p v Hv H0) as [Hs _].
    destruct (applyThrow_checkout_fields this p v Hv H0)
      as (_ & _ & _ & _ & Hm & _).
    rewrite Hs, Hm. split; [reflexivity | left; reflexivity].
  - intros p v _ _ Hv H2.
    destruct (applyThrow_scored_stats p v Hv H2) as [Hs _].
    destruct (applyThrow_scored_fields this p v Hv H2)
      as (_ & _ & _ & _ & Hm & _).
    rewrite Hs, Hm. split; [reflexivity | left; reflexivity].
  - intros p _ IH. exact IH.
  - intros p _ _. split; [reflexivity | right; split; reflexivity].
Qed.

Lemma reachable_buckets (p : PlayerState) :
  reachable this p ->
  forall b, bucket_count b (stats p) = visits_in_bucket b (matchHistory p).
Proof.
  revert p.
  apply (reachable_cases
           (fun p => forall b,
              bucket_count b (stats p) = visits_in_bucket b (matchHistory p))).
  - intros nm i b. destruct b; reflexivity.
  - intros p _ IH. exact IH.
  - intros p v _ IH Hv H0 b.
    destruct (applyThrow_checkout_stats p v Hv H0) as [Hs _].
    destruct (applyThrow_checkout_fields this p v Hv H0)
      as (_ & _ & _ & _ & Hm & _).
    rewrite Hs, Hm, bucket_count_recorded, visits_in_bucket_app.
    cbv zeta.
    match goal with
    | |- context [if ?c then _ else _] => destruct c
    end;
      rewrite ?bucket_count_highest, bucket_count_updateBestLeg,
        updateStats_bucket, IH; reflexivity.
  - intros p v _ IH Hv H2 b.
    destruct (applyThrow_scored_stats p v Hv H2) as [Hs _].
    destruct (applyThrow_scored_fields this p v Hv H2)
      as (_ & _ & _ & _ & Hm & _).
    rewrite Hs, Hm, bucket_count_recorded, visits_in_bucket_app,
      updateStats_bucket, IH. reflexivity.
  - intros p _ IH. exact IH.
  - intros p _ _ b. destruct b; reflexivity.
Qed.

Lemma reachable_darts (p : PlayerState) :
  reachable this p -> exists k, 0 <= k /\ dartsThrown p = 3 * k.
Proof.
  revert p. apply reachable_cases.
  - intros nm i. exists 0. simpl. lia.
  - intros p _ [k [Hk Hd]]. exists (k + 1). simpl. lia.
  - intros p v _ _ Hv H0.
    destruct (applyThrow_checkout_stats p v Hv H0) as [_ Hd].
    exists 0. lia.
  - intros p v _ [k [Hk Hd]] Hv H2.
    destruct (applyThrow_scored_stats p v Hv H2) as [_ Hd'].
    exists (k + 1). lia.
  - intros p _ _. exists 0. simpl. lia.
  - intros p _ _. exists 0. simpl. lia.
Qed.

Lemma reachable_never_one (p : PlayerState) :
  reachable this p ->
  score p = startingScore (config this) \/ score p = 0 \/ 2 <= score p.
Proof.
  revert p. apply reachable_cases.
  - intros nm i. left. reflexivity.
  - intros p _ IH. exact IH.
  - intros p v _ _ Hv H0.
    destruct (applyThrow_checkout_fields this p v Hv H0) as (_ & Hs & _).
    right; left. exact Hs.
  - intros p v _ _ Hv H2.
    destruct (applyThrow_scored_fields this p v Hv H2) as (_ & Hs & _).
    right; right. lia.
  - intros p _ _. left. reflexivity.
  - intros p _ _. left. reflexivity.
Qed.

(** X3. The current leg is the end of the match history, and only
    admissible visits are recorded. *)
Theorem history_ends_matchHistory (p : PlayerState) :
  reachable this p ->
  (exists earlier, matchHistory p = earlier ++ history p)
  /\ Forall (fun v => 0 <= v <= 180) (matchHistory p).
Proof. exact (reachable_histories p). Qed.

(** X4. The statistics follow the match history. *)
Theorem stats_follow_matchHistory (p : PlayerState) :
  reachable this p ->
  average (stats p) = calculateAverage (matchHistory p)
  /\ (visit_history (stats p) = Some (matchHistory p)
      \/ (visit_history (stats p) = None /\ matchHistory p = [])).
Proof. exact (reachable_stats_mirror p). Qed.

(** X5. Each bucket counts the recorded visits of its range. *)
Theorem buckets_count_matchHistory (p : PlayerState) (b : Bucket) :
  reachable this p ->
  bucket_count b (stats p) = visits_in_bucket b (matchHistory p)
  /\ 0 <= bucket_count b (stats p) <= Z.of_nat (length (matchHistory p)).
Proof.
  intros Hreach. pose proof (reachable_buckets p Hreach b) as Hb.
  split; [exact Hb |]. rewrite Hb. clear Hb Hreach.
  unfold visits_in_bucket, total.
  induction (matchHistory p) as [| v l IH]; [simpl; lia |].
  cbn [map foldr length]. rewrite Nat2Z.inj_succ.
  unfold bump at 1 3. destruct (in_bucket_rangeb b v); lia.
Qed.

(** X6. The darts of the current leg come in threes. *)
Theorem dartsThrown_multiple_of_three (p : PlayerState) :
  reachable this p -> 0 <= dartsThrown p /\ dartsThrown p mod 3 = 0.
Proof.
  intros Hreach. destruct (reachable_darts p Hreach) as [k [Hk Hd]].
  rewrite Hd. split; [lia |]. rewrite Z.mul_comm. apply Z_mod_mult.
Qed.

(** X7. No player is ever left on 1. *)
Theorem never_left_on_one (p : PlayerState) :
  reachable this p ->
  startingScore (config this) <> 1 -> score p <> 1.
Proof.
  intros Hreach Hstart.
  destruct (reachable_never_one p Hreach) as [H | [H | H]]; lia.
Qed.

(** X8. A leg win records the fewest darts so far. *)
Theorem leg_win_best_leg (p : PlayerState) (v : Z) :
  0 <= v <= 180 -> score p - v = 0 ->
  best_leg (stats (player (applyThrow this p v)))
  = Some (best_of_legs (best_leg (stats p)) (dartsThrown p + 3)).
Proof.
  intros Hv H0. destruct (applyThrow_checkout_stats p v Hv H0) as [Hs _].
  rewrite Hs. cbv zeta. cbn [best_leg set_average_history].
  match goal with
  | |- context [if ?c then _ else _] => destruct c
  end; cbn [best_leg set_highest_checkout];
    rewrite best_leg_updateBestLeg; reflexivity.
Qed.

(** X9. A leg win records the highest score checked out so far. *)
Theorem leg_win_highest_checkout (p : PlayerState) (v : Z) :
  0 <= v <= 180 -> score p - v = 0 ->
  highest_checkout (stats (player (applyThrow this p v)))
  = Some (highest_of (highest_checkout (stats p)) (score p)).
Proof.
  intros Hv H0. destruct (applyThrow_checkout_stats p v Hv H0) as [Hs _].
  rewrite Hs. cbv zeta. cbn [highest_checkout set_average_history].
  rewrite highest_checkout_updateBestLeg.
  cbn [highest_checkout updateStats].
  unfold highest_of, truthy.
  destruct (highest_checkout (stats p)) as [h |] eqn:Hh.
  - rewrite Z.gtb_ltb.
    destruct (Z.eqb_spec h 0) as [Heq | Hne];
      destruct (Z.ltb_spec h (score p));
      cbn [negb orb highest_checkout set_highest_checkout];
      rewrite ?highest_checkout_updateBestLeg;
      cbn [highest_checkout updateStats]; rewrite ?Hh; f_equal; lia.
  - reflexivity.
Qed.

Lemma reachable_legs (p : PlayerState) :
  reachable this p ->
  (legs p = 0 /\ best_leg (stats p) = None
   /\ highest_checkout (stats p) = None)
  \/ (0 < legs p
      /\ (exists best, best_leg (stats p) = Some best /\ 3 <= best)
      /\ (exists h, highest_checkout (stats p) = Some h /\ 0 <= h)).
Proof.
  intros Hreach.
  assert (Hboth :
    (exists k, 0 <= k /\ dartsThrown p = 3 * k)
    /\ ((legs p = 0 /\ best_leg (stats p) = None
         /\ highest_checkout (stats p) = None)
        \/ (0 < legs p
            /\ (exists best, best_leg (stats p) = Some best /\ 3 <= best)
            /\ (exists h, highest_checkout (stats p) = Some h /\ 0 <= h))));
    [| exact (proj2 Hboth)].
  revert p Hreach. apply reachable_cases.
  - intros nm i. split; [exists 0; simpl; lia |]. left. repeat split.
  - intros p _ [[k [Hk Hd]] IH]. split; [exists (k + 1); simpl; lia |].
    exact IH.
  - intros p v Hp [[k [Hk Hd]] IH] Hv H0.
    destruct (applyThrow_checkout_stats p v Hv H0) as [_ Hd'].
    split; [exists 0; lia |]. right.
    destruct (applyThrow_checkout_fields this p v Hv H0)
      as (_ & _ & Hl & _).
    rewrite Hl, leg_win_best_leg, leg_win_highest_checkout by assumption.
    split; [destruct IH as [(-> & _) | (Hpos & _)]; lia |]. split.
    + eexists. split; [reflexivity |]. unfold best_of_legs.
      destruct IH as [(_ & -> & _) | (_ & (best & -> & Hbest) & _)]; lia.
    + eexists. split; [reflexivity |]. unfold highest_of.
      destruct IH as [(_ & _ & ->) | (_ & _ & (h & -> & Hh))]; lia.
  - intros p v Hp [[k [Hk Hd]] IH] Hv H2.
    destruct (applyThrow_scored_stats p v Hv H2) as [Hs Hd'].
    split; [exists (k + 1); lia |].
    destruct (applyThrow_scored_fields this p v Hv H2) as (_ & _ & Hl & _).
    rewrite Hl, Hs. exact IH.
  - intros p _ [_ IH]. split; [exists 0; simpl; lia |]. exact IH.
  - intros p _ _. split; [exists 0; simpl; lia |]. left. repeat split.
Qed.

(** X10. The best leg and the highest checkout are set once a leg is won. *)
Theorem best_leg_set_iff_leg_won (p : PlayerState) :
  reachable this p ->
  0 <= legs p
  /\ (legs p = 0 <-> best_leg (stats p) = None)
  /\ (legs p = 0 <-> highest_checkout (stats p) = None)
  /\ (forall best, best_leg (stats p) = Some best -> 3 <= best)
  /\ (forall h, highest_checkout (stats p) = Some h -> 0 <= h).
Proof.
  intros Hreach.
  destruct (reachable_legs p Hreach)
    as [(Hl & Hb & Hh) | (Hl & (best & Hb & Hbest) & (h & Hh & Hh0))].
  - rewrite Hl, Hb, Hh. repeat split; intros; try discriminate; lia.
  - rewrite Hb, Hh.
    repeat split; intros; try discriminate; try lia; congruence.
Qed.

(** X11. The match flag of a visit is [checkMatchWin] on the legs it
    leaves, and [checkMatchWin] keeps holding as legs are added. *)
Theorem isMatchWon_is_checkMatchWin (p : PlayerState) (v : Z) :
  let a := applyThrow this p v in
  isMatchWon (result a)
  = isLegWon (result a) && checkMatchWin this (legs (player a))
  /\ forall l l', l <= l' ->
       checkMatchWin this l = true -> checkMatchWin this l' = true.
Proof.
  cbv zeta. split.
  - destruct (visit_cases p v) as [Hr | [[Hv Hb] | [[Hv H0] | [Hv H2]]]].
    + rewrite applyThrow_rejected by assumption. reflexivity.
    + rewrite applyThrow_bust_eq by assumption. reflexivity.
    + destruct (applyThrow_checkout_fields this p v Hv H0)
        as (Hr & _ & Hl & _).
      rewrite Hr, Hl. reflexivity.
    + destruct (applyThrow_scored_fields this p v Hv H2) as (Hr & _).
      rewrite Hr. reflexivity.
  - intros l l' Hle. unfold checkMatchWin.
    rewrite !Z.geb_leb, !Z.leb_le. lia.
Qed.

(** X12. [updateBestLeg] keeps the smaller count: it does nothing the
    second time, and two legs can be entered in either order. *)
Theorem updateBestLeg_min (s : MatchStats) (a b : Z) :
  best_leg (updateBestLeg s a) = Some (best_of_legs (best_leg s) a)
  /\ updateBestLeg (updateBestLeg s a) a = updateBestLeg s a
  /\ updateBestLeg (updateBestLeg s a) b = updateBestLeg (updateBestLeg s b) a.
Proof.
  split; [apply best_leg_updateBestLeg |].
  destruct s as [s65 s90 s100 s140 s170 s180 bl av hc vh pn].
  unfold updateBestLeg, set_best_leg. cbn [best_leg].
  split.
  - destruct bl as [best |]; cbn.
    + destruct (Z.ltb_spec a best); cbn; rewrite ?Z.ltb_irrefl; try reflexivity.
      destruct (Z.ltb_spec a best); [lia | reflexivity].
    + rewrite Z.ltb_irrefl. reflexivity.
  - destruct bl as [best |]; cbn.
    + destruct (Z.ltb_spec a best); destruct (Z.ltb_spec b best); cbn;
        repeat match goal with
          | |- context [?x <? ?y] => destruct (Z.ltb_spec x y); cbn
          end; try reflexivity; try lia; do 2 f_equal; lia.
    + destruct (Z.ltb_spec b a); destruct (Z.ltb_spec a b); cbn;
        try reflexivity; try lia; do 2 f_equal; lia.
Qed.

End Engine.

(** X13. Legs needed: between one and the target, and for a best-of match
    at least half of the target. *)
Theorem getLegsNeeded_bounds (cfg : MatchConfig) :
  1 <= targetLegs cfg ->
  let this := new_DartsScoringEngine cfg in
  1 <= getLegsNeeded this <= targetLegs cfg
  /\ (matchType cfg = first_to -> getLegsNeeded this = targetLegs cfg)
  /\ (matchType cfg = best_of ->
      targetLegs cfg <= 2 * getLegsNeeded this <= targetLegs cfg + 1)
  /\ checkMatchWin this 0 = false
  /\ checkMatchWin this (targetLegs cfg) = true.
Proof.
  intros Ht this. subst this. unfold getLegsNeeded, checkMatchWin.
  rewrite legsNeeded_new, !Z.geb_leb.
  pose proof (Z.div_mod (targetLegs cfg + 1) 2 ltac:(lia)) as H1.
  pose proof (Z.mod_pos_bound (targetLegs cfg + 1) 2 ltac:(lia)) as H2.
  destruct (matchType cfg);
    repeat split; intros; try discriminate; try lia;
    try (apply Z.leb_gt; lia); apply Z.leb_le; lia.
Qed.

(** *** Averages and percentages *)




Lemma total_bounds (h : list Z) (lo hi : Z) :
  Forall (fun v => lo <= v <= hi) h ->
  lo * Z.of_nat (length h) <= total h <= hi * Z.of_nat (length h).
Proof.
  unfold total. induction 1 as [| v l Hv Hl IH]; [simpl; lia |].
  cbn [foldr length]. rewrite Nat2Z.inj_succ. lia.
Qed.




Section Engine.

Variable this : DartsScoringEngine.


End Engine.

(** X16. The first-nine average is the average of the first three visits:
    it is the plain average of a list of at most three, and later visits do
    not move it. *)
Theorem calculateFirst9Average_first_three (h later : list Z) :
  calculateFirst9Average h = calculateAverage (take 3 h)
  /\ ((length h <= 3)%nat -> calculateFirst9Average h = calculateAverage h)
  /\ ((3 <= length h)%nat ->
      calculateFirst9Average (h ++ later) = calculateFirst9Average h).
Proof.
  assert (Hdef : forall l, calculateFirst9Average l = calculateAverage (take 3 l))
    by reflexivity.
  split; [apply Hdef |]. split.
  - intros Hlen. rewrite Hdef, take_ge by exact Hlen. reflexivity.
  - intros Hlen. rewrite !Hdef, take_app_le by exact Hlen. reflexivity.
Qed.


(** *** Valid checkouts *)

Import CheckoutProps (Zrange_forallb, includes_spec, reachable_in_three_iff).

(** X18. [isValidCheckout] accepts exactly the scores that can be finished
    in three darts, except 59, 69, 99 and 109, which it rejects; it accepts
    none of [INVALID_CHECKOUTS]. *)
Theorem isValidCheckout_reachable (s : Z) :
  (isValidCheckout s = true
   <-> Board.reachable_in_three s /\ s ∉ missing_valid)
  /\ (isValidCheckout s = true -> s ∉ INVALID_CHECKOUTS).
Proof.
  assert (Hrange : isValidCheckout s = true -> 2 <= s <= 170).
  { intros Hv. apply includes_spec, list_elem_of_In in Hv.
    assert (Hall : forallb (fun x => (2 <=? x) && (x <=? 170)) VALID_CHECKOUTS
                   = true) by (vm_compute; reflexivity).
    rewrite forallb_forall in Hall. specialize (Hall s Hv).
    apply andb_true_iff in Hall. rewrite !Z.leb_le in Hall. exact Hall. }
  assert (Hscan : forall x, 2 <= x < 2 + Z.of_nat 169 ->
            Bool.eqb (isValidCheckout x)
              (negb (includes INVALID_CHECKOUTS x)
               && negb (includes missing_valid x)) = true).
  { apply Zrange_forallb. vm_compute. reflexivity. }
  assert (Hiff : isValidCheckout s = true
                 <-> Board.reachable_in_three s /\ s ∉ missing_valid).
  { rewrite reachable_in_three_iff. split.
    - intros Hv. pose proof (Hrange Hv) as Hs.
      specialize (Hscan s ltac:(lia)). apply Bool.eqb_prop in Hscan.
      rewrite Hv in Hscan. symmetry in Hscan.
      apply andb_true_iff in Hscan. destruct Hscan as [Hi Hm].
      apply negb_true_iff in Hi, Hm.
      repeat split; try lia; intros Hin; apply includes_spec in Hin; congruence.
    - intros [[Hs Hni] Hnm].
      specialize (Hscan s ltac:(lia)). apply Bool.eqb_prop in Hscan.
      rewrite Hscan. apply andb_true_iff. split; apply negb_true_iff.
      + destruct (includes INVALID_CHECKOUTS s) eqn:E; [| reflexivity].
        apply includes_spec in E. contradiction.
      + destruct (includes missing_valid s) eqn:E; [| reflexivity].
        apply includes_spec in E. contradiction. }
  split; [exact Hiff |].
  intros Hv. apply Hiff in Hv. destruct Hv as [Hr _].
  apply reachable_in_three_iff in Hr. apply Hr.
Qed.

End ScoringMore.

(** * Properties of the suggested finishes, the codes and the bot helpers *)

Module TableMore.
Import JS Constants Scoring Vocabulary Finish.

Lemma finishesb_spec (s : Z) (finish : string) :
  finishesb s finish = true -> finishes s finish.
Proof.
  unfold finishesb, finishes.
  destruct (darts_of finish) as [darts |]; [| discriminate].
  intros H. apply andb_true_iff in H. destruct H as [H Hlast].
  apply andb_true_iff in H. destruct H as [Hlen Hsum].
  apply Nat.leb_le in Hlen. apply Z.eqb_eq in Hsum.
  destruct (last darts) as [[d [|]] |] eqn:Hl; try discriminate.
  exists darts, d. repeat split; assumption.
Qed.

(** X19. Every finish the table suggests is a finish of the score: at most
    three darts that add up to it, the last one a double or the bull. *)
Theorem suggested_finish_is_sound (s : Z) (finish : string) :
  getSuggestedCheckout s = Some finish -> finishes s finish.
Proof.
  intros Hget. unfold getSuggestedCheckout, getCheckoutSuggestion, CHECKOUT_TABLE in Hget.
  apply elem_of_list_to_map_2, list_elem_of_In in Hget.
  assert (Hall : forallb (fun e => finishesb (fst e) (snd e)) CHECKOUT_ENTRIES
                 = true) by (vm_compute; reflexivity).
  rewrite forallb_forall in Hall. specialize (Hall (s, finish) Hget).
  apply finishesb_spec. exact Hall.
Qed.

End TableMore.

Module CodeGenProps.
Import JS Bot CodeGen.
Import BotProps (bind_run, Math_floor_scaled).

Lemma chars_app (a b : string) : chars (a +:+ b) = chars a ++ chars b.
Proof.
  unfold chars. induction a as [| c a IH]; [reflexivity |].
  change (String c a +:+ b) with (String c (a +:+ b)).
  cbn [String.list_ascii_of_string]. rewrite IH. reflexivity.
Qed.

Lemma length_chars (s : string) : length (chars s) = String.length s.
Proof.
  unfold chars. induction s as [| c s IH]; [reflexivity |].
  cbn [String.list_ascii_of_string length String.length]. rewrite IH.
  reflexivity.
Qed.

(** Inside the string, [charAt] is one of its characters. *)
Lemma charAt_inside (s : string) (i : Z) :
  0 <= i < Z.of_nat (String.length s) ->
  exists c, charAt s i = String c "" /\ c ∈ chars s.
Proof.
  intros Hi. unfold charAt.
  destruct (Z.ltb_spec i 0); [lia |].
  assert (Hn : (Z.to_nat i < String.length s)%nat) by lia.
  generalize (Z.to_nat i) Hn. clear. unfold chars.
  induction s as [| c s IH]; intros n Hn; [simpl in Hn; lia |].
  destruct n as [| n]; cbn [String.get String.list_ascii_of_string].
  - exists c. split; [reflexivity | apply list_elem_of_here].
  - destruct (IH n ltac:(simpl in Hn; lia)) as (c' & Hc & Hin).
    exists c'. split; [exact Hc | apply list_elem_of_further, Hin].
Qed.

Section Draws.

Variable src : RandomSource.
Hypothesis src_uniform : uniform src.

Lemma generateCode_loop_spec (todo : nat) (code : string) (n : nat) :
  let out := generateCode_loop todo code src n in
  snd out = (n + todo)%nat
  /\ exists suffix,
       fst out = code +:+ suffix
       /\ String.length suffix = todo
       /\ Forall (fun c => c ∈ chars CODE_CHARACTERS) (chars suffix).
Proof.
  revert code n. induction todo as [| todo IH]; intros code n; cbv zeta.
  - cbn [generateCode_loop ret fst snd]. split; [lia |].
    exists "". repeat split.
    + clear. induction code as [| c code IH]; [reflexivity |].
      change (String c code +:+ "") with (String c (code +:+ "")).
      rewrite <- IH. reflexivity.
    + constructor.
  - cbn [generateCode_loop]. rewrite bind_run. cbn [Math_random fst snd].
    destruct (src_uniform n) as [H0 H1].
    pose proof (Math_floor_scaled (src n)
                  (Z.of_nat (String.length CODE_CHARACTERS))
                  ltac:(vm_compute; reflexivity) H0 H1) as Hidx.
    destruct (charAt_inside CODE_CHARACTERS _ Hidx) as (c & Hc & Hin).
    rewrite Hc.
    destruct (IH (code +:+ String c "") (S n)) as (Hsnd & suffix & Hfst & Hlen & Hall).
    split; [rewrite Hsnd; lia |].
    exists (String c suffix). split; [| split].
    + rewrite Hfst. clear. induction code as [| d code IH]; [reflexivity |].
      change (String d code +:+ String c "") with (String d (code +:+ String c "")).
      change (String d (code +:+ String c "") +:+ suffix)
        with (String d ((code +:+ String c "") +:+ suffix)).
      rewrite IH. reflexivity.
    + cbn [String.length]. rewrite Hlen. reflexivity.
    + unfold chars in *. cbn [String.list_ascii_of_string].
      constructor; assumption.
Qed.

End Draws.

(** X20. A code has the length asked for (6 by default, none for a
    negative length), is made of characters of [CODE_CHARACTERS] only, so
    holds none of 0, O, I, 1 and L, and uses one draw per character. *)
Theorem generateCode_shape (src : RandomSource) (len : option Z) (n : nat) :
  uniform src ->
  let code := fst (generateCode len src n) in
  String.length code = Z.to_nat (default 6 len)
  /\ Forall (fun c => c ∈ chars CODE_CHARACTERS /\ c ∉ chars confusing)
       (chars code)
  /\ snd (generateCode len src n) = (n + Z.to_nat (default 6%Z len))%nat.
Proof.
  intros Hsrc code. subst code. unfold generateCode.
  change DEFAULT_CODE_LENGTH with 6.
  destruct (generateCode_loop_spec src Hsrc (Z.to_nat (default 6 len)) "" n)
    as (Hsnd & suffix & Hfst & Hlen & Hall).
  rewrite Hfst, Hsnd. change ("" +:+ suffix) with suffix.
  split; [exact Hlen |]. split; [| reflexivity].
  eapply Forall_impl; [exact Hall |]. intros c Hc. split; [exact Hc |].
  intros Hbad. revert Hc. apply list_elem_of_In in Hbad.
  rewrite list_elem_of_In. vm_compute in Hbad. vm_compute.
  intuition congruence.
Qed.

End CodeGenProps.

Module BotMore.
Import JS Constants Bot BotUtil.
Import BotProps (bind_run, Math_floor_scaled, getIdealLeave_range,
  attemptCheckout_range, generateScoringVisit_range).
Import ScoringProps (processThrow_scored, processThrow_checkout).
Import CheckoutProps (includes_spec).

Section Engine.

Variable level : BotLevel.
Variable boxMuller : Q -> Q -> Q.
Variable src : RandomSource.

Lemma getIdealLeave_draws (n : nat) :
  (n <= snd (getIdealLeave level src n) <= n + 1)%nat.
Proof.
  unfold getIdealLeave. destruct (avg level >=? 80).
  - cbn [ret snd]. lia.
  - rewrite bind_run. cbn [Math_random ret fst snd]. lia.
Qed.

Lemma attemptCheckout_draws (currentScore : Z) (n : nat) :
  (n + 1 <= snd (attemptCheckout level currentScore src n) <= n + 3)%nat.
Proof.
  unfold attemptCheckout. rewrite bind_run. cbn [Math_random fst snd].
  destruct (Qltb (src n) (checkoutRate level)); [cbn [ret snd]; lia |].
  destruct (currentScore <=? 40).
  - rewrite bind_run. cbn [Math_random ret fst snd]. lia.
  - rewrite bind_run. pose proof (getIdealLeave_draws (S n)) as Hl.
    destruct (fst (getIdealLeave level src (S n)));
      rewrite bind_run; cbn [Math_random ret fst snd]; lia.
Qed.

Lemma generateScoringVisit_draws (currentScore : Z) (n : nat) :
  (n + 2 <= snd (generateScoringVisit level boxMuller currentScore src n)
   <= n + 3)%nat.
Proof.
  unfold generateScoringVisit.
  rewrite bind_run. cbn [Math_random fst snd].
  rewrite bind_run. cbn [Math_random fst snd].
  match goal with
  | |- context [if ?c then _ else _] => destruct c
  end; [| cbn [ret snd]; lia].
  rewrite bind_run. pose proof (getIdealLeave_draws (S (S n))) as Hl.
  destruct (fst (getIdealLeave level src (S (S n)))) as [leave |].
  - destruct (currentScore >? leave); cbn [ret snd]; lia.
  - cbn [ret snd]. lia.
Qed.

(** X21. One call of [generateScore] makes at least one and at most three
    draws, whatever they are. *)
Theorem generateScore_draws (currentScore : Z) (n : nat) :
  (n + 1 <= snd (generateScore level boxMuller currentScore src n) <= n + 3)%nat.
Proof.
  unfold generateScore.
  match goal with
  | |- context [if ?c then _ else _] => destruct c
  end.
  - apply attemptCheckout_draws.
  - pose proof (generateScoringVisit_draws currentScore n). lia.
Qed.

Hypothesis src_uniform : uniform src.

Lemma generateScoringVisit_safe (currentScore : Z) (n : nat) :
  40 < currentScore ->
  exists v,
    fst (generateScoringVisit level boxMuller currentScore src n) = Some v
    /\ 0 <= v <= 180 /\ 2 <= currentScore - v.
Proof.
  intros Hcs. unfold generateScoringVisit.
  rewrite bind_run. cbn [Math_random fst snd].
  rewrite bind_run. cbn [Math_random fst snd].
  set (sample :=
         Math_round (inject_Z (avg level)
                     + boxMuller (src n) (src (S n)) * inject_Z (consistency level))).
  set (score := Math_max 0 (Math_min 180 sample)).
  assert (Hscore : 0 <= score <= 180)
    by (unfold score, Math_max, Math_min; lia).
  destruct ((currentScore - score <=? 1) && (currentScore >? 40)) eqn:Hnear.
  - apply andb_true_iff in Hnear. destruct Hnear as [Hle _].
    apply Z.leb_le in Hle. rewrite bind_run.
    destruct (getIdealLeave_range level src src_uniform (S (S n)))
      as (leave & Hleave & Hrange).
    rewrite Hleave. rewrite Z.gtb_ltb.
    destruct (Z.ltb_spec leave currentScore); [| lia].
    eexists. split; [reflexivity | lia].
  - exists score. split; [reflexivity |]. split; [exact Hscore |].
    apply andb_false_iff in Hnear. rewrite Z.leb_gt, Z.gtb_ltb, Z.ltb_ge in Hnear.
    lia.
Qed.

(** X22. On a score that is not checkout-eligible (above 170, or one of
    the seven of [INVALID_CHECKOUTS]) the bot returns a visit that leaves at
    least 2: fed to the scoring engine it is an ordinary visit, neither a
    bust nor a leg win. *)
Theorem scoring_phase_never_busts (currentScore : Z) (n : nat) :
  170 < currentScore \/ currentScore ∈ INVALID_CHECKOUTS ->
  exists v,
    fst (generateScore level boxMuller currentScore src n) = Some v
    /\ 0 <= v <= 180
    /\ 2 <= currentScore - v
    /\ forall this p,
         Scoring.score p = currentScore ->
         Scoring.processThrow this p v = Vocabulary.scored p v.
Proof.
  intros Hphase.
  assert (Hcan : (currentScore <=? 170)
                 && negb (includes INVALID_CHECKOUTS currentScore) = false).
  { apply andb_false_iff. destruct Hphase as [Hhi | Hin].
    - left. apply Z.leb_gt. exact Hhi.
    - right. apply negb_false_iff, includes_spec. exact Hin. }
  assert (Hcs : 40 < currentScore).
  { destruct Hphase as [Hhi | Hin]; [lia |].
    apply includes_spec in Hin. unfold includes, INVALID_CHECKOUTS in Hin.
    cbn [existsb] in Hin. rewrite !orb_true_iff, !Z.eqb_eq in Hin. lia. }
  unfold generateScore. rewrite Hcan.
  destruct (generateScoringVisit_safe currentScore n Hcs)
    as (v & Hv & Hrange & Hleft).
  exists v. repeat split; try assumption; try lia.
  intros this p Hp. apply processThrow_scored; [lia | rewrite Hp; exact Hleft].
Qed.

(** X23. On an eligible score a roll below the checkout rate makes the bot
    return the score itself after one draw, and that visit wins the leg in
    the scoring engine. *)
Theorem checkout_roll_wins_leg (currentScore : Z) (n : nat) :
  0 <= currentScore <= 170 ->
  currentScore ∉ INVALID_CHECKOUTS ->
  (src n < checkoutRate level)%Q ->
  generateScore level boxMuller currentScore src n = (Some currentScore, S n)
  /\ forall this p,
       Scoring.score p = currentScore ->
       Scoring.isLegWon (Scoring.processThrow this p currentScore) = true.
Proof.
  intros Hcs Hnin Hroll.
  assert (Hcan : (currentScore <=? 170)
                 && negb (includes INVALID_CHECKOUTS currentScore) = true).
  { apply andb_true_iff. split; [apply Z.leb_le; lia |].
    apply negb_true_iff. destruct (includes INVALID_CHECKOUTS currentScore) eqn:E;
      [apply includes_spec in E; contradiction | reflexivity]. }
  assert (Hlt : Qltb (src n) (checkoutRate level) = true).
  { unfold Qltb. apply negb_true_iff.
    destruct (Qle_bool (checkoutRate level) (src n)) eqn:E; [| reflexivity].
    apply Qle_bool_iff in E. lra. }
  split.
  - unfold generateScore. rewrite Hcan. unfold attemptCheckout.
    rewrite bind_run. cbn [Math_random fst snd]. rewrite Hlt. reflexivity.
  - intros this p Hp. rewrite processThrow_checkout; [reflexivity | lia | lia].
Qed.

End Engine.

(** *** The thinking delay and the catalogue *)




(** X25. The two look-ups find every level of the catalogue under its own
    id and name, and whatever they find is a level of the catalogue with
    the id or name asked for; an id outside 1..6 finds nothing. *)
Theorem level_lookups (level : BotLevel) (i : Z) (nm : string) :
  (level ∈ BOT_LEVELS ->
   getBotLevelById (id level) = Some level
   /\ getBotLevelByName (name level) = Some level)
  /\ (getBotLevelById i = Some level -> level ∈ BOT_LEVELS /\ id level = i)
  /\ (getBotLevelByName nm = Some level -> level ∈ BOT_LEVELS /\ name level = nm)
  /\ (i < 1 \/ 6 < i -> getBotLevelById i = None).
Proof.
  assert (Hby_id : getBotLevelById i = Some level ->
                   level ∈ BOT_LEVELS /\ id level = i).
  { unfold getBotLevelById, LEVEL_BY_ID, BOT_LEVELS. cbn [foldl id].
    rewrite !lookup_insert, lookup_empty.
    repeat case_decide; intros Heq; try discriminate;
      injection Heq as <-; (split; [| assumption]);
      repeat (first [apply list_elem_of_here | apply list_elem_of_further]). }
  assert (Hby_name : getBotLevelByName nm = Some level ->
                     level ∈ BOT_LEVELS /\ name level = nm).
  { unfold getBotLevelByName, LEVEL_BY_NAME, BOT_LEVELS. cbn [foldl name].
    rewrite !lookup_insert, lookup_empty.
    repeat case_decide; intros Heq; try discriminate;
      injection Heq as <-; (split; [| assumption]);
      repeat (first [apply list_elem_of_here | apply list_elem_of_further]). }
  split; [| split; [exact Hby_id | split; [exact Hby_name |]]].
  - intros Hin. unfold BOT_LEVELS in Hin.
    repeat (apply elem_of_cons in Hin; destruct Hin as [-> | Hin]);
      try (split; vm_compute; reflexivity).
    apply elem_of_nil in Hin. contradiction.
  - intros Hout. destruct (getBotLevelById i) as [l |] eqn:Hl; [| reflexivity].
    assert (Hl' : getBotLevelById i = Some l) by exact Hl.
    clear Hby_id Hby_name. exfalso.
    unfold getBotLevelById, LEVEL_BY_ID, BOT_LEVELS in Hl'. cbn [foldl id] in Hl'.
    rewrite !lookup_insert, lookup_empty in Hl'.
    repeat case_decide; try discriminate; lia.
Qed.

End BotMore.

(** * Properties of the two-player game *)

Module AppProps.
Import JS Scoring App.
Import ScoringProps (visit_cases, applyThrow_rejected, applyThrow_bust_eq,
  applyThrow_checkout_fields, applyThrow_scored_fields, legsNeeded_new,
  checkout_isMatchWon_first_to, checkout_isMatchWon_best_of_odd).

Lemma setup_valid_bounds (g : GameSetup) :
  setup_valid g ->
  121 <= startingScore g
  /\ 1 <= targetLegs g /\ Z.odd (targetLegs g) = true.
Proof.
  intros [Hs Hl]. unfold STARTING_SCORE_OPTIONS in Hs. unfold LEGS_OPTIONS in Hl.
  repeat (apply elem_of_cons in Hs; destruct Hs as [-> | Hs]);
    try (apply elem_of_nil in Hs; contradiction);
    repeat (apply elem_of_cons in Hl; destruct Hl as [-> | Hl]);
    try (apply elem_of_nil in Hl; contradiction);
    repeat split; try reflexivity; lia.
Qed.

Lemma legsNeeded_of_setup (g : GameSetup) :
  setup_valid g ->
  1 <= legsNeeded (new_DartsScoringEngine (config_of_setup g)).
Proof.
  intros Hg. destruct (setup_valid_bounds g Hg) as (_ & Hl & _).
  rewrite legsNeeded_new. cbn [config_of_setup Types.matchType Types.targetLegs].
  destruct (matchType g); [exact Hl |].
  pose proof (Z.div_mod (targetLegs g + 1) 2 ltac:(lia)) as H1.
  pose proof (Z.mod_pos_bound (targetLegs g + 1) 2 ltac:(lia)) as H2.
  lia.
Qed.

(** What a visit does to a player who is in the middle of a leg and short
    of the legs needed. *)
Lemma turn_outcome (e : DartsScoringEngine) (cur : PlayerState) (v : Z) :
  Vocabulary.reachable e cur -> 2 <= score cur ->
  0 <= legs cur < legsNeeded e ->
  let a := applyThrow e cur v in
  Vocabulary.reachable e (player a)
  /\ name (player a) = name cur
  /\ ((isMatchWon (result a) = true
       /\ score (player a) = 0 /\ legs (player a) = legsNeeded e)
      \/ (isMatchWon (result a) = false /\ isLegWon (result a) = true
          /\ 0 <= legs (player a) < legsNeeded e)
      \/ (isMatchWon (result a) = false /\ isLegWon (result a) = false
          /\ 2 <= score (player a) /\ legs (player a) = legs cur
          /\ (isBust (result a) = true \/ v < 0 \/ 180 < v ->
              score (player a) = score cur
              /\ history (player a) = history cur))).
Proof.
  intros Hreach Hscore Hlegs a.
  split; [apply Vocabulary.reach_applyThrow; exact Hreach |]. subst a.
  destruct (visit_cases cur v) as [Hr | [[Hv Hb] | [[Hv H0] | [Hv H2]]]].
  - rewrite applyThrow_rejected by assumption.
    split; [reflexivity |]. right; right. cbn. repeat split; try lia.
  - rewrite applyThrow_bust_eq by assumption.
    split; [reflexivity |]. right; right. cbn. repeat split; try lia.
  - destruct (applyThrow_checkout_fields e cur v Hv H0)
      as (Hres & Hs & Hl & _ & _ & _ & _ & Hn & _).
    split; [exact Hn |]. rewrite Hres, Hs, Hl. unfold Vocabulary.checkout.
    cbn [isMatchWon isLegWon]. rewrite Z.geb_leb.
    destruct (Z.leb_spec (legsNeeded e) (legs cur + 1)).
    + left. repeat split; lia.
    + right; left. repeat split; lia.
  - destruct (applyThrow_scored_fields e cur v Hv H2)
      as (Hres & Hs & Hl & Hh & _ & _ & _ & Hn & _).
    split; [exact Hn |]. rewrite Hres, Hs, Hl. right; right. cbn.
    repeat split; try lia; destruct H as [H | H]; try discriminate; lia.
Qed.

Lemma length_substring_le (n m : nat) (s : string) :
  (String.length (String.substring n m s) <= String.length s)%nat.
Proof.
  revert n m. induction s as [| c s IH]; intros n m.
  - destruct n, m; simpl; lia.
  - destruct n as [| n]; [destruct m as [| m] |]; cbn [String.substring String.length].
    + lia.
    + specialize (IH 0%nat m). lia.
    + specialize (IH n m). lia.
Qed.

Section Handlers.

Variable parseInt : string -> option Z.

(** A state with the players at [q1] and [q2] after the thrower's visit. *)
Lemma on_game_screen_game_on (st : State) :
  invariant st -> screen st = game_screen -> game_on st.
Proof. intros (_ & _ & Hscr) Hg. rewrite Hg in Hscr. exact Hscr. Qed.

Lemma handleEnter_invariant (st : State) :
  invariant st -> screen st = game_screen -> invariant (handleEnter parseInt st).
Proof.
  intros Hinv Hg. pose proof Hinv as (Hsetup & Hlen & Hscr).
  rewrite Hg in Hscr.
  destruct Hscr as (e & p1 & p2 & He & Hp1 & Hp2 & Hnew & Hr1 & Hr2
                    & Hs1 & Hs2 & Hl1 & Hl2 & Hw).
  unfold handleEnter. rewrite He, Hp1, Hp2.
  destruct (String.eqb (inputValue st) ""); [exact Hinv |].
  destruct (parseInt (inputValue st)) as [v |].
  2:{ split; [exact Hsetup |]. split; [cbn; lia |]. cbn [screen setInputValue].
      rewrite Hg. exists e, p1, p2. cbn. repeat split; assumption || lia. }
  assert (Hstart : 2 <= Types.startingScore (config e)).
  { rewrite Hnew. cbn. destruct (setup_valid_bounds _ Hsetup) as (H & _). lia. }
  destruct (currentPlayer st) eqn:Hside.
  - destruct (turn_outcome e p1 v Hr1 Hs1 Hl1)
      as (Hru & Hname & [(Hm & Hsu & Hlu) | [(Hm & Hleg & Hlu) | (Hm & Hleg & Hsu & Hlu & _)]]).
    + rewrite Hm. split; [exact Hsetup |]. split; [cbn; lia |].
      cbn [screen]. eexists e, _, _, _, _.
      cbn. repeat split; try reflexivity; try assumption; try lia.
    + rewrite Hm, Hleg. split; [exact Hsetup |]. split; [cbn; lia |].
      cbn [screen]. rewrite Hg. eexists e, _, _. cbn.
      repeat split; try reflexivity; try assumption;
        try (apply Vocabulary.reach_resetForNewLeg; assumption);
        unfold resetForNewLeg; cbn [legs score]; lia.
    + rewrite Hm, Hleg.
      destruct (isBust (result (applyThrow e p1 v))); cbn [negb];
        (split; [exact Hsetup |]); (split; [cbn; lia |]);
        cbn [screen]; rewrite Hg; eexists e, _, _; cbn;
        repeat split; try reflexivity; try assumption; try lia.
  - destruct (turn_outcome e p2 v Hr2 Hs2 Hl2)
      as (Hru & Hname & [(Hm & Hsu & Hlu) | [(Hm & Hleg & Hlu) | (Hm & Hleg & Hsu & Hlu & _)]]).
    + rewrite Hm. split; [exact Hsetup |]. split; [cbn; lia |].
      cbn [screen]. eexists e, _, _, _, _.
      cbn. repeat split; try reflexivity; try assumption; try lia.
    + rewrite Hm, Hleg. split; [exact Hsetup |]. split; [cbn; lia |].
      cbn [screen]. rewrite Hg. eexists e, _, _. cbn.
      repeat split; try reflexivity; try assumption;
        try (apply Vocabulary.reach_resetForNewLeg; assumption);
        unfold resetForNewLeg; cbn [legs score]; lia.
    + rewrite Hm, Hleg.
      destruct (isBust (result (applyThrow e p2 v))); cbn [negb];
        (split; [exact Hsetup |]); (split; [cbn; lia |]);
        cbn [screen]; rewrite Hg; eexists e, _, _; cbn;
        repeat split; try reflexivity; try assumption; try lia.
Qed.

Lemma step_invariant (st st' : State) :
  invariant st -> step parseInt st st' -> invariant st'.
Proof.
  intros Hinv Hstep. pose proof Hinv as (Hsetup & Hlen & Hscr).
  destruct Hstep as
    [st nm Hs | st nm Hs | st sc Hs Hin | st mt Hs | st lg Hs Hin | st Hs
    | st Hs H1 H2 | st Hs H1 H2 | st Hs | st shown Hs | st num Hs Hnum
    | st Hs | st Hs | st Hs].
  1-5: rewrite Hs in Hscr; split; [| split; [exact Hlen |]];
       [destruct Hsetup; split; assumption | cbn [screen setSetup]; rewrite Hs; exact Hscr].
  - (* start *)
    split; [exact Hsetup |]. split; [cbn; lia |]. cbn [screen handleStartGame].
    pose proof (legsNeeded_of_setup _ Hsetup) as Hneed.
    destruct (setup_valid_bounds _ Hsetup) as (Hstart & _).
    eexists _, _, _. cbn [engine player1 player2 winner setup handleStartGame].
    repeat split; try reflexivity; try (apply Vocabulary.reach_create);
      unfold createPlayerState; cbn [score legs]; try lia;
      change (Types.startingScore
                (config (new_DartsScoringEngine (config_of_setup (setup st)))))
        with (startingScore (setup st)); lia.
  - (* rematch *)
    rewrite Hs in Hscr.
    destruct Hscr as (e & p1 & p2 & w & l & He & Hp1 & Hp2 & Hnew & Hr1 & Hr2 & _).
    unfold handleRematch. rewrite He, Hp1, Hp2.
    split; [exact Hsetup |]. split; [cbn; lia |]. cbn [screen].
    assert (Hneed : 1 <= legsNeeded e)
      by (rewrite Hnew; apply legsNeeded_of_setup; exact Hsetup).
    assert (Hstart : 2 <= Types.startingScore (config e)).
    { rewrite Hnew. cbn. destruct (setup_valid_bounds _ Hsetup) as (H & _). lia. }
    eexists e, _, _. cbn.
    repeat split; try reflexivity; try assumption;
      try (apply Vocabulary.reach_resetForNewMatch; assumption);
      unfold resetForNewMatch; cbn [legs score]; lia.
  - (* new game from the result *)
    split; [exact Hsetup |]. split; [exact Hlen |]. cbn. repeat split.
  - (* new game from the game *)
    split; [exact Hsetup |]. split; [exact Hlen |]. cbn. repeat split.
  - (* stats modal *)
    destruct Hs as (Hs & _). rewrite Hs in Hscr.
    split; [exact Hsetup |]. split; [exact Hlen |].
    cbn [screen setShowStatsModal]. rewrite Hs. exact Hscr.
  - (* number *)
    destruct Hs as (Hs & _). rewrite Hs in Hscr. unfold handleNumberClick.
    destruct (Nat.ltb_spec 3 (String.length (inputValue st +:+ pretty num)));
      [exact Hinv |].
    split; [exact Hsetup |]. split; [cbn [inputValue setInputValue]; lia |].
    cbn [screen setInputValue]. rewrite Hs. exact Hscr.
  - (* clear *)
    destruct Hs as (Hs & _). rewrite Hs in Hscr.
    split; [exact Hsetup |]. split; [cbn; lia |].
    cbn [screen handleClear setInputValue]. rewrite Hs. exact Hscr.
  - (* undo *)
    destruct Hs as (Hs & _). rewrite Hs in Hscr.
    split; [exact Hsetup |]. split.
    + cbn [inputValue handleUndo setInputValue].
      pose proof (length_substring_le 0 (String.length (inputValue st) - 1)
                    (inputValue st)). lia.
    + cbn [screen handleUndo setInputValue]. rewrite Hs. exact Hscr.
  - (* enter *)
    destruct Hs as (Hs & _). apply handleEnter_invariant; assumption.
Qed.

Lemma reachable_invariant (st : State) :
  reachable_state parseInt st -> invariant st.
Proof.
  induction 1 as [| st st' _ IH Hstep].
  - split; [| split; [cbn; lia | cbn; repeat split]].
    split; cbn; [apply list_elem_of_here |
                 apply list_elem_of_further, list_elem_of_here].
  - exact (step_invariant st st' IH Hstep).
Qed.

(** X26. While the game screen is shown, the engine is the one built from
    the setup, both players are in the middle of a leg (at least 2 left)
    and short of the legs needed, and no winner is set: nobody throws at a
    leg that is already finished. *)
Theorem game_screen_mid_leg (st : State) :
  reachable_state parseInt st -> screen st = game_screen -> game_on st.
Proof.
  intros Hreach Hg. apply on_game_screen_game_on; [| exact Hg].
  apply reachable_invariant. exact Hreach.
Qed.

(** X27. When the result screen is shown, the winner is the name of the
    player who threw last; that player is on 0 with exactly the legs
    needed, and the opponent has fewer. *)
Theorem result_screen_winner (st : State) :
  reachable_state parseInt st -> screen st = result_screen -> game_over st.
Proof.
  intros Hreach Hr. destruct (reachable_invariant st Hreach) as (_ & _ & Hscr).
  rewrite Hr in Hscr. exact Hscr.
Qed.

(** X28. The input never holds more than three characters, and the choices
    of the setup stay among the options offered. *)
Theorem input_at_most_three (st : State) :
  reachable_state parseInt st ->
  (String.length (inputValue st) <= 3)%nat
  /\ startingScore (setup st) ∈ STARTING_SCORE_OPTIONS
  /\ targetLegs (setup st) ∈ LEGS_OPTIONS.
Proof.
  intros Hreach.
  destruct (reachable_invariant st Hreach) as ((Hs & Hl) & Hlen & _).
  repeat split; assumption.
Qed.

(** X29. Who throws next.  An entry outside [0,180] changes neither player
    and passes the turn; a bust costs the thrower three darts and keeps the
    turn; an ordinary visit passes the turn. *)
Theorem handleEnter_turn (st : State) (e : DartsScoringEngine)
    (p1 p2 cur : PlayerState) (v : Z) :
  engine st = Some e -> player1 st = Some p1 -> player2 st = Some p2 ->
  inputValue st <> "" -> parseInt (inputValue st) = Some v ->
  thrower st = Some cur ->
  let st' := handleEnter parseInt st in
  (v < 0 \/ 180 < v ->
   player1 st' = Some p1 /\ player2 st' = Some p2
   /\ currentPlayer st' = other_side (currentPlayer st))
  /\ (0 <= v <= 180 -> score cur - v < 0 \/ score cur - v = 1 ->
      thrower st' = Some (Vocabulary.after_bust cur)
      /\ waiting st' = waiting st
      /\ currentPlayer st' = currentPlayer st)
  /\ (0 <= v <= 180 -> 2 <= score cur - v ->
      waiting st' = Some (player (applyThrow e cur v))
      /\ thrower st' = waiting st
      /\ currentPlayer st' = other_side (currentPlayer st)).
Proof.
  intros He Hp1 Hp2 Hin Hparse Hcur st'. subst st'.
  unfold handleEnter. rewrite He, Hp1, Hp2, Hparse.
  destruct (String.eqb_spec (inputValue st) ""); [contradiction |].
  unfold thrower, waiting in *.
  destruct (currentPlayer st) eqn:Hside;
    [rewrite Hp1 in Hcur | rewrite Hp2 in Hcur];
    injection Hcur as <-; rewrite ?Hp1, ?Hp2.
  - split; [| split].
    + intros Hv. rewrite applyThrow_rejected by lia. cbn.
      repeat split.
    + intros Hv Hb. rewrite applyThrow_bust_eq by assumption. cbn.
      repeat split.
    + intros Hv H2.
      destruct (applyThrow_scored_fields e p1 v Hv H2) as (Hres & _).
      rewrite Hres. cbn. repeat split.
  - split; [| split].
    + intros Hv. rewrite applyThrow_rejected by lia. cbn.
      repeat split.
    + intros Hv Hb. rewrite applyThrow_bust_eq by assumption. cbn.
      repeat split.
    + intros Hv H2.
      destruct (applyThrow_scored_fields e p2 v Hv H2) as (Hres & _).
      rewrite Hres. cbn. repeat split.
Qed.

(** X30. A match started from the setup screen has an odd number of legs,
    so its engine reports a match as won exactly when the legs reached are
    the target ([first_to]) or more than half of it ([best_of]). *)
Theorem started_match_majority (st : State) (e : DartsScoringEngine)
    (p : PlayerState) (v : Z) :
  reachable_state parseInt st -> engine st = Some e ->
  0 <= v <= 180 -> score p - v = 0 ->
  Z.odd (targetLegs (setup st)) = true
  /\ (isMatchWon (processThrow e p v) = true
      <-> match matchType (setup st) with
          | Types.first_to => legs p + 1 >= targetLegs (setup st)
          | Types.best_of => legs p + 1 > targetLegs (setup st) / 2
          end).
Proof.
  intros Hreach He Hv H0.
  destruct (reachable_invariant st Hreach) as (Hsetup & _ & Hscr).
  destruct (setup_valid_bounds _ Hsetup) as (_ & _ & Hodd).
  split; [exact Hodd |].
  assert (Hnew : e = new_DartsScoringEngine (config_of_setup (setup st))).
  { destruct (screen st).
    - destruct Hscr as (Hnone & _). congruence.
    - destruct Hscr as (e' & ? & ? & He' & _ & _ & Hnew & _). congruence.
    - destruct Hscr as (e' & ? & ? & ? & ? & He' & _ & _ & Hnew & _). congruence. }
  rewrite Hnew. destruct (matchType (setup st)) eqn:Hmt.
  - exact (checkout_isMatchWon_first_to (config_of_setup (setup st)) p v
             Hmt Hv H0).
  - exact (checkout_isMatchWon_best_of_odd (config_of_setup (setup st)) p v
             Hmt Hodd Hv H0).
Qed.

End Handlers.

End AppProps.

(** ** The averages in binary64 *)

Module AverageProps.
Import JS Vocabulary Binary64.
Import Floats Uint63.

(** [Math.round] at the values that tell the roundings apart. *)
Lemma Math_round_examples :
  Math_round 2.5 = 3%float /\ Math_round (-2.5) = (-2)%float
  /\ Math_round 57.5 = 58%float
  /\ Math_round (23 / 40 * 100) = 57%float
  /\ Math_round 0x1.fffffffffffffp-2 = 0%float
  /\ Math_round (-0.5) = (-0)%float
  /\ Math_round 4503599627370497 = 4503599627370497%float
  /\ Math_round infinity = infinity.
Proof. vm_compute. repeat split. Qed.

Lemma wB_val : wB = 9223372036854775808.
Proof. reflexivity. Qed.

Lemma to_Z_of_Z (z : Z) : 0 <= z < 9223372036854775808 -> to_Z (of_Z z) = z.
Proof. intros H. rewrite of_Z_spec, wB_val. apply Z.mod_small. exact H. Qed.

Lemma to_Z_succ (n : int) :
  to_Z n < 9223372036854775807 -> to_Z (n + 1)%uint63 = to_Z n + 1.
Proof.
  intros H. pose proof (to_Z_bounded n) as Hb.
  rewrite add_spec, to_Z_1, wB_val. apply Z.mod_small. lia.
Qed.

Lemma Z2F_nonneg (z : Z) : 0 <= z -> Z2F z = of_uint63 (of_Z z).
Proof.
  intros H. unfold Z2F.
  destruct (Z.ltb_spec z 0) as [Hlt | _]; [lia | reflexivity].
Qed.

Lemma all_from_sound (count : nat) :
  forall (lo : int) (P : int -> bool),
    all_from count lo P = true ->
    forall z : Z,
      to_Z lo <= z < to_Z lo + Z.of_nat count -> z < 9223372036854775807 ->
      P (of_Z z) = true.
Proof.
  induction count as [| c IH]; intros lo P H z Hz Hw.
  - lia.
  - cbn [all_from] in H. destruct (P lo) eqn:E; [| discriminate].
    destruct (Z.eq_dec z (to_Z lo)) as [-> | Hne].
    + rewrite of_to_Z. exact E.
    + apply (IH (lo + 1)%uint63 P H); [| exact Hw].
      rewrite to_Z_succ by lia. lia.
Qed.

Lemma rows_sound (post : float -> float) (step count : nat) :
  forall (n : int) (cnt : nat),
    rows post step count n cnt = true ->
    to_Z n + Z.of_nat count <= 1048576 -> (step <= 180)%nat ->
    Z.of_nat cnt = Z.of_nat step * to_Z n + 1 ->
    forall nz tz : Z,
      to_Z n <= nz < to_Z n + Z.of_nat count ->
      0 <= tz <= Z.of_nat step * nz ->
      nearestb post (of_Z tz) (of_Z nz) = true.
Proof.
  induction count as [| c IH]; intros n cnt H Hb Hs Hc nz tz Hn Ht.
  - lia.
  - cbn [rows] in H.
    destruct (all_from cnt 0%uint63 (fun t => nearestb post t n)) eqn:E;
      [| discriminate].
    pose proof (to_Z_bounded n) as Hbn.
    destruct (Z.eq_dec nz (to_Z n)) as [-> | Hne].
    + rewrite (of_to_Z n).
      apply (all_from_sound cnt 0%uint63 (fun t => nearestb post t n) E tz).
      * rewrite to_Z_0. lia.
      * nia.
    + apply (IH (n + 1)%uint63 (step + cnt)%nat H);
        rewrite ?to_Z_succ by lia; try lia.
Qed.

Lemma nearestb_sound (post : float -> float) (tz nz : Z) :
  1 <= nz <= 1048576 -> 0 <= tz <= 180 * nz ->
  nearestb post (of_Z tz) (of_Z nz) = true ->
  let r := post (Math_round ((Z2F tz / Z2F nz) * 100)%float) in
  let k := (200 * tz + nz) / (2 * nz) in
  r = post (Z2F k)
  \/ ((200 * tz + nz) mod (2 * nz) = 0 /\ r = post (Z2F (k - 1))).
Proof.
  intros Hn Ht H r k.
  assert (Ek : 0 <= k <= 18000).
  { unfold k. split.
    - apply Z.div_pos; lia.
    - enough ((200 * tz + nz) / (2 * nz) < 18001) by lia.
      apply Z.div_lt_upper_bound; lia. }
  assert (Et : to_Z (of_Z tz) = tz) by (apply to_Z_of_Z; lia).
  assert (En : to_Z (of_Z nz) = nz) by (apply to_Z_of_Z; lia).
  assert (E200 : to_Z 200 = 200) by reflexivity.
  assert (E2 : to_Z 2 = 2) by reflexivity.
  assert (Enum : to_Z (200 * of_Z tz + of_Z nz)%uint63 = 200 * tz + nz).
  { rewrite add_spec, mul_spec, E200, Et, En, wB_val.
    rewrite (Z.mod_small (200 * tz)) by lia. apply Z.mod_small. lia. }
  assert (Eden : to_Z (2 * of_Z nz)%uint63 = 2 * nz).
  { rewrite mul_spec, E2, En, wB_val. apply Z.mod_small. lia. }
  assert (Eq : to_Z ((200 * of_Z tz + of_Z nz) / (2 * of_Z nz))%uint63 = k).
  { rewrite div_spec, Enum, Eden. reflexivity. }
  assert (Er : r = post (Math_round
                          ((of_uint63 (of_Z tz) / of_uint63 (of_Z nz)) * 100)%float)).
  { unfold r. rewrite !Z2F_nonneg by lia. reflexivity. }
  unfold nearestb in H. rewrite <- Er in H.
  apply orb_true_iff in H. destruct H as [H | H].
  - left. apply FloatAxioms.Leibniz.eqb_spec in H. rewrite H.
    rewrite Z2F_nonneg by lia. rewrite <- Eq, of_to_Z. reflexivity.
  - apply andb_true_iff in H. destruct H as [Htie H].
    apply eqb_spec in Htie. apply (f_equal to_Z) in Htie.
    rewrite mod_spec, Enum, Eden, to_Z_0 in Htie.
    right. split; [exact Htie |].
    assert (Hk0 : k <> 0).
    { intros Hz. unfold k in Hz.
      pose proof (Z.div_mod (200 * tz + nz) (2 * nz) ltac:(lia)) as Hdm.
      rewrite Hz, Htie in Hdm. lia. }
    apply FloatAxioms.Leibniz.eqb_spec in H. rewrite H.
    rewrite Z2F_nonneg by lia. do 2 f_equal. apply to_Z_inj.
    rewrite to_Z_of_Z by lia.
    rewrite sub_spec, Eq, to_Z_1, wB_val. apply Z.mod_small. lia.
Qed.

Lemma scan_sound (post : float -> float) (step N : nat) (tz nz : Z) :
  scan post step N = true -> Z.of_nat N <= 1048575 -> (step <= 180)%nat ->
  1 <= nz <= Z.of_nat N -> 0 <= tz <= Z.of_nat step * nz ->
  let r := post (Math_round ((Z2F tz / Z2F nz) * 100)%float) in
  let k := (200 * tz + nz) / (2 * nz) in
  r = post (Z2F k)
  \/ ((200 * tz + nz) mod (2 * nz) = 0 /\ r = post (Z2F (k - 1))).
Proof.
  intros Hscan HN Hs Hn Ht.
  apply nearestb_sound; [lia | nia |].
  apply (rows_sound post step N 1%uint63 (step + 1) Hscan);
    rewrite ?to_Z_1; lia.
Qed.

(** Every total of up to 300 visits of 0 to 180 each. *)
Lemma scan_averages : scan (fun x => x / 100)%float 180 300 = true.
Proof. vm_compute. reflexivity. Qed.

(** Every number of hits out of up to 1000 attempts. *)
Lemma scan_percentages : scan (fun x => x) 1 1000 = true.
Proof. vm_compute. reflexivity. Qed.

Lemma mod_zero_multiple (a b : Z) :
  b <> 0 -> a mod b = 0 -> exists q : Z, a = b * q.
Proof.
  intros Hb Hmod. exists (a / b).
  pose proof (Z.div_mod a b Hb) as Hdm. lia.
Qed.

Lemma scaled_mean_fraction (t : Z) (p : positive) :
  (inject_Z t / inject_Z (Z.pos p) * 100 + (1 # 2)
   == (200 * t + Z.pos p) # (2 * p))%Q.
Proof.
  unfold Qeq, Qdiv, Qmult, Qplus, Qinv, inject_Z. simpl Qnum. simpl Qden.
  lia.
Qed.

Lemma Math_round_quotient (t n : Z) :
  0 < n ->
  JS.Math_round (inject_Z t / inject_Z n * 100) = (200 * t + n) / (2 * n).
Proof.
  intros Hn. unfold JS.Math_round. destruct n as [| p | p]; try lia.
  rewrite (Qfloor_comp _ _ (scaled_mean_fraction t p)). reflexivity.
Qed.

Lemma round2_mean (h : list Z) :
  h <> [] ->
  round2 (mean h)
  = (200 * total h + Z.of_nat (length h)) / (2 * Z.of_nat (length h)).
Proof.
  intros Hne. unfold round2, mean. apply Math_round_quotient.
  destruct h; [congruence | rewrite length_cons; lia].
Qed.


(** The average of up to 300 visits, on the integers. *)
Lemma calculateAverage_scanned (h : list Z) :
  h <> [] -> (length h <= 300)%nat ->
  Forall (fun v => 0 <= v <= 180) h ->
  let n := Z.of_nat (length h) in
  let k := (200 * total h + n) / (2 * n) in
  Binary64.calculateAverage h = hundredths k
  \/ ((200 * total h + n) mod (2 * n) = 0
      /\ Binary64.calculateAverage h = hundredths (k - 1)).
Proof.
  intros Hne Hlen Hall n k.
  pose proof (ScoringMore.total_bounds h 0 180 Hall) as Ht.
  assert (Hn : 1 <= n <= 300).
  { unfold n. destruct h; [congruence |]. rewrite length_cons in *. lia. }
  assert (E : Binary64.calculateAverage h
              = (fun x => x / 100)%float
                  (Math_round ((Z2F (total h) / Z2F n) * 100)%float)).
  { unfold Binary64.calculateAverage. fold n.
    destruct (Z.eqb_spec n 0) as [H0 | _]; [lia |].
    rewrite ScoringProps.sum_reduce_total. reflexivity. }
  rewrite E.
  exact (scan_sound (fun x => x / 100)%float 180 300 (total h) n
           scan_averages ltac:(lia) ltac:(lia) ltac:(lia) ltac:(lia)).
Qed.

(** The exact model of [calculateAverage] holds the same hundredths as
    the specification's [round2] of the mean. *)
Lemma calculateAverage_exact_round2 (h : list Z) :
  h <> [] ->
  Scoring.calculateAverage h = (inject_Z (round2 (mean h)) / 100)%Q.
Proof. exact (ScoringProps.calculateAverage_nonempty h). Qed.




(** *** The other two roundings of the source *)

(** Up to three visits never give a mean half-way between two hundredths:
    [calculateFirst9Average] is [round2] of the mean of the first three
    visits, as in the exact model. *)
Lemma calculateFirst9Average_round2 (h : list Z) :
  h <> [] -> Forall (fun v => 0 <= v <= 180) h ->
  Binary64.calculateFirst9Average h = hundredths (round2 (mean (take 3 h))).
Proof.
  intros Hne Hall.
  assert (Hne3 : take 3 h <> []) by (destruct h; [congruence | discriminate]).
  assert (Hlen3 : (length (take 3 h) <= 3)%nat).
  { rewrite length_take. lia. }
  change (Binary64.calculateFirst9Average h)
    with (Binary64.calculateAverage (take 3 h)).
  rewrite round2_mean by assumption.
  destruct (calculateAverage_scanned (take 3 h) Hne3 ltac:(lia)
              ltac:(apply Forall_take; exact Hall)) as [H | [Hmod _]].
  - exact H.
  - exfalso.
    assert (Hn : 1 <= Z.of_nat (length (take 3 h)) <= 3).
    { destruct (take 3 h); [congruence | rewrite length_cons in *; lia]. }
    revert Hmod. generalize (total (take 3 h)). intros t.
    assert (Z.of_nat (length (take 3 h)) = 1
            \/ Z.of_nat (length (take 3 h)) = 2
            \/ Z.of_nat (length (take 3 h)) = 3) as [-> | [-> | ->]] by lia;
      intros Hmod; apply mod_zero_multiple in Hmod; try lia;
      destruct Hmod as [q Hq]; lia.
Qed.

(** The checkout percentage of up to 1000 attempts is the percentage of
    the exact model, or at a tie the one below it; 23 hits out of 40 give
    57 where the exact 57.5 rounds to 58. *)
Lemma calculateCheckoutPercentage_nearest (hit attempts : Z) :
  1 <= attempts <= 1000 -> 0 <= hit <= attempts ->
  let k := ScoringUtil.calculateCheckoutPercentage hit attempts in
  Binary64.calculateCheckoutPercentage hit attempts = Z2F k
  \/ ((200 * hit + attempts) mod (2 * attempts) = 0
      /\ Binary64.calculateCheckoutPercentage hit attempts = Z2F (k - 1)).
Proof.
  intros Ha Hh k.
  assert (Ek : k = (200 * hit + attempts) / (2 * attempts)).
  { unfold k, ScoringUtil.calculateCheckoutPercentage.
    destruct (Z.eqb_spec attempts 0) as [H0 | _]; [lia |].
    apply Math_round_quotient. lia. }
  assert (E : Binary64.calculateCheckoutPercentage hit attempts
              = (fun x => x)
                  (Math_round ((Z2F hit / Z2F attempts) * 100)%float)).
  { unfold Binary64.calculateCheckoutPercentage.
    destruct (Z.eqb_spec attempts 0) as [H0 | _]; [lia | reflexivity]. }
  rewrite E, Ek.
  exact (scan_sound (fun x => x) 1 1000 hit attempts
           scan_percentages ltac:(lia) ltac:(lia) ltac:(lia) ltac:(lia)).
Qed.

Lemma calculateCheckoutPercentage_23_of_40 :
  Binary64.calculateCheckoutPercentage 23 40 = Z2F 57
  /\ ScoringUtil.calculateCheckoutPercentage 23 40 = 58.
Proof. split; vm_compute; reflexivity. Qed.

End AverageProps.

(** * The further properties at concrete inputs *)

Module Checks.
Import JS Types Constants Scoring Vocabulary Measures ScoringUtil Samples.

Lemma after_140_reachable : reachable engine_501 after_140.
Proof. apply reach_applyThrow, reach_create. Qed.

Lemma history_ends_matchHistory_after_140 :
  (exists earlier, matchHistory after_140 = earlier ++ history after_140)
  /\ Forall (fun v => 0 <= v <= 180) (matchHistory after_140).
Proof.
  exact (ScoringMore.history_ends_matchHistory engine_501 after_140
           after_140_reachable).
Defined.

Lemma stats_follow_matchHistory_after_140 :
  average (stats after_140) = calculateAverage (matchHistory after_140)
  /\ (visit_history (stats after_140) = Some (matchHistory after_140)
      \/ (visit_history (stats after_140) = None /\ matchHistory after_140 = [])).
Proof.
  exact (ScoringMore.stats_follow_matchHistory engine_501 after_140
           after_140_reachable).
Defined.

Lemma buckets_count_matchHistory_after_140 :
  bucket_count B140 (stats after_140)
  = visits_in_bucket B140 (matchHistory after_140)
  /\ 0 <= bucket_count B140 (stats after_140)
     <= Z.of_nat (length (matchHistory after_140)).
Proof.
  exact (ScoringMore.buckets_count_matchHistory engine_501 after_140 B140
           after_140_reachable).
Defined.

Lemma dartsThrown_multiple_of_three_after_140 :
  0 <= dartsThrown after_140 /\ dartsThrown after_140 mod 3 = 0.
Proof.
  exact (ScoringMore.dartsThrown_multiple_of_three engine_501 after_140
           after_140_reachable).
Defined.

Lemma never_left_on_one_after_140 : score after_140 <> 1.
Proof.
  exact (ScoringMore.never_left_on_one engine_501 after_140
           after_140_reachable ltac:(discriminate)).
Defined.

Lemma leg_win_best_leg_on_forty :
  best_leg (stats (player (applyThrow engine_501 (on_forty 1) 40))) = Some 15.
Proof.
  exact (ScoringMore.leg_win_best_leg engine_501 (on_forty 1) 40
           ltac:(lia) eq_refl).
Defined.

Lemma leg_win_highest_checkout_on_forty :
  highest_checkout (stats (player (applyThrow engine_501 (on_forty 1) 40)))
  = Some 40.
Proof.
  exact (ScoringMore.leg_win_highest_checkout engine_501 (on_forty 1) 40
           ltac:(lia) eq_refl).
Defined.

Lemma best_leg_set_iff_leg_won_after_140 :
  0 <= legs after_140
  /\ (legs after_140 = 0 <-> best_leg (stats after_140) = None)
  /\ (legs after_140 = 0 <-> highest_checkout (stats after_140) = None)
  /\ (forall best, best_leg (stats after_140) = Some best -> 3 <= best)
  /\ (forall h, highest_checkout (stats after_140) = Some h -> 0 <= h).
Proof.
  exact (ScoringMore.best_leg_set_iff_leg_won engine_501 after_140
           after_140_reachable).
Defined.

Lemma getLegsNeeded_bounds_best_of_five :
  let this := new_DartsScoringEngine (config_of 501 best_of 5) in
  1 <= getLegsNeeded this <= 5
  /\ (best_of = first_to -> getLegsNeeded this = 5)
  /\ (best_of = best_of -> 5 <= 2 * getLegsNeeded this <= 5 + 1)
  /\ checkMatchWin this 0 = false
  /\ checkMatchWin this 5 = true.
Proof.
  exact (ScoringMore.getLegsNeeded_bounds (config_of 501 best_of 5)
           ltac:(cbn; lia)).
Defined.



Lemma suggested_finish_is_sound_at_170 : Finish.finishes 170 "T20 T20 Bull".
Proof.
  exact (TableMore.suggested_finish_is_sound 170 "T20 T20 Bull" eq_refl).
Defined.

(** *** Codes and the bot *)

Lemma always_zero_uniform : Bot.uniform always_zero.
Proof. intros n. split; [apply Qle_refl | reflexivity]. Qed.

Lemma generateCode_shape_default :
  let code := fst (CodeGen.generateCode None always_half 0%nat) in
  String.length code = 6%nat
  /\ Forall (fun c => c ∈ CodeGen.chars CodeGen.CODE_CHARACTERS
                      /\ c ∉ CodeGen.chars CodeGen.confusing)
       (CodeGen.chars code)
  /\ snd (CodeGen.generateCode None always_half 0%nat) = 6%nat.
Proof.
  exact (CodeGenProps.generateCode_shape always_half None 0%nat
           BotProps.always_half_uniform).
Defined.

Lemma scoring_phase_never_busts_on_501 :
  exists v,
    fst (Bot.generateScore beginner (fun _ _ => 1%Q) 501 always_half 0%nat)
    = Some v
    /\ 0 <= v <= 180
    /\ 2 <= 501 - v
    /\ forall this p,
         score p = 501 -> processThrow this p v = scored p v.
Proof.
  exact (BotMore.scoring_phase_never_busts beginner (fun _ _ => 1%Q)
           always_half BotProps.always_half_uniform 501 0%nat
           (or_introl eq_refl)).
Defined.

Lemma checkout_roll_wins_leg_on_forty :
  Bot.generateScore beginner (fun _ _ => 1%Q) 40 always_zero 0%nat
  = (Some 40, 1%nat)
  /\ forall this p,
       score p = 40 -> isLegWon (processThrow this p 40) = true.
Proof.
  refine (BotMore.checkout_roll_wins_leg beginner (fun _ _ => 1%Q)
            always_zero 40 0%nat ltac:(lia) _ eq_refl).
  intros Hin. apply CheckoutProps.includes_spec in Hin. discriminate Hin.
Defined.


(** *** The game *)

Lemma started_reachable : App.reachable_state reads_60 started.
Proof.
  apply (App.reach_step reads_60 App.initial); [apply App.reach_initial |].
  apply App.step_start. reflexivity.
Qed.

Lemma started_on_game_screen : App.on_game_screen started.
Proof. repeat split; cbn; eauto. Qed.

Lemma short_over_reachable : App.reachable_state reads_121 short_over.
Proof.
  apply (App.reach_step reads_121 short_typed);
    [| apply App.step_enter; repeat split; cbn; eauto].
  apply (App.reach_step reads_121 (App.handleStartGame short_setup));
    [| apply App.step_number; [repeat split; cbn; eauto | lia]].
  apply (App.reach_step reads_121 short_setup); [| apply App.step_start; reflexivity].
  apply (App.reach_step reads_121 picked_121 short_setup).
  - apply (App.reach_step reads_121 App.initial picked_121);
      [apply App.reach_initial |].
    exact (App.step_startingScore reads_121 App.initial 121 eq_refl
             ltac:(repeat (first [apply list_elem_of_here
                                 | apply list_elem_of_further]))).
  - exact (App.step_targetLegs reads_121 picked_121 1 eq_refl
             (list_elem_of_here _ _)).
Qed.

Lemma game_screen_mid_leg_started : App.game_on started.
Proof.
  exact (AppProps.game_screen_mid_leg reads_60 started started_reachable eq_refl).
Defined.

Lemma result_screen_winner_short : App.game_over short_over.
Proof.
  exact (AppProps.result_screen_winner reads_121 short_over
           short_over_reachable eq_refl).
Defined.

Lemma input_at_most_three_started :
  (String.length (App.inputValue started) <= 3)%nat
  /\ App.startingScore (App.setup started) ∈ App.STARTING_SCORE_OPTIONS
  /\ App.targetLegs (App.setup started) ∈ App.LEGS_OPTIONS.
Proof.
  exact (AppProps.input_at_most_three reads_60 started started_reachable).
Defined.

Lemma handleEnter_turn_rejected_entry :
  App.player1 (App.handleEnter reads_181 typed) = App.player1 typed
  /\ App.player2 (App.handleEnter reads_181 typed) = App.player2 typed
  /\ App.currentPlayer (App.handleEnter reads_181 typed) = App.Two.
Proof.
  refine (proj1 (AppProps.handleEnter_turn reads_181 typed _ _ _ _ 181
                   eq_refl eq_refl eq_refl ltac:(discriminate) eq_refl eq_refl)
            (or_intror eq_refl)).
Defined.

Lemma started_match_majority_started :
  Z.odd 3 = true
  /\ (isMatchWon (processThrow engine_501 (on_forty 2) 40) = true
      <-> 2 + 1 >= 3).
Proof.
  exact (AppProps.started_match_majority reads_60 started _ (on_forty 2) 40
           started_reachable eq_refl ltac:(lia) eq_refl).
Defined.

End Checks.
